(** * The DeFi store of the rotki frontend

    A shallow embedding of [frontend/app/src/store/defi/index.ts]:
    the account derivation [defiAccounts], the [overview] aggregation and
    the fetch orchestration [fetchDefiBalances] / [fetchAllDefi].

    Conventions of the embedding.
    - A JavaScript object used as a map is an association list in insertion
      order: assigning to an existing key keeps the key's position, assigning
      to a new key appends it.  The keys are addresses (0x...), protocol
      names and enum values; they are taken to be neither integer-like
      strings nor names of members of [Object.prototype], so that
      [Object.keys], [Object.values] and [for ... in] enumerate in insertion
      order and a key that was never assigned reads as [undefined].
    - [BigNumber] values are finite decimals, a coefficient and a number of
      decimal places; [plus] is exact.
    - An [async] function is cut at its [await]s: one function per
      synchronous segment, the state of the store being passed explicitly.
    - Localised strings are kept symbolic (key and parameters). *)

From Stdlib Require Import String List ZArith QArith Bool Arith Lia Permutation.
Import ListNotations.
Local Close Scope Q_scope.
Local Open Scope string_scope.
Local Open Scope list_scope.
Local Open Scope nat_scope.

Set Implicit Arguments.

(* ================================================================== *)
(** ** Arbitrary-precision decimals *)

Module BigNumber.

(** The finite values of bignumber.js: [coefficient * 10 ^ (- decimals)]. *)
Record t : Type := make { coefficient : Z; decimals : nat }.

Definition scale (n : nat) : Z := (10 ^ Z.of_nat n)%Z.

(** The coefficient of [a] written with [d >= decimals a] decimal places. *)
Definition align (a : t) (d : nat) : Z :=
  (coefficient a * scale (d - decimals a))%Z.

Definition plus (a b : t) : t :=
  let d := Nat.max (decimals a) (decimals b) in
  make (align a d + align b d) d.

Definition gt (a b : t) : bool :=
  let d := Nat.max (decimals a) (decimals b) in
  (align a d >? align b d)%Z.

Definition of_Z (z : Z) : t := make z 0.

(** The rational a decimal denotes. *)
Definition toQ (a : t) : Q :=
  Qmake (coefficient a) (Z.to_pos (scale (decimals a))).

End BigNumber.

Abbreviation BigNumber := BigNumber.t.

(** [Zero] of [@/utils/bignumbers]. *)
Definition Zero : BigNumber := BigNumber.of_Z 0.

(* ================================================================== *)
(** ** JavaScript objects used as maps *)

Section JsObject.
Variables K V : Type.
Variable K_eq_dec : forall x y : K, {x = y} + {x <> y}.

Definition JsObject : Type := list (K * V).

(** [o[k]], [None] standing for [undefined]. *)
Fixpoint obj_get (k : K) (o : JsObject) : option V :=
  match o with
  | [] => None
  | (k', v) :: rest => if K_eq_dec k k' then Some v else obj_get k rest
  end.

(** [o[k] = v]: in place when [k] is a key of [o], appended otherwise. *)
Fixpoint obj_set (k : K) (v : V) (o : JsObject) : JsObject :=
  match o with
  | [] => [(k, v)]
  | (k', v') :: rest =>
      if K_eq_dec k k' then (k', v) :: rest else (k', v') :: obj_set k v rest
  end.

Definition Object_keys (o : JsObject) : list K := map fst o.
Definition Object_values (o : JsObject) : list V := map snd o.

End JsObject.

Arguments obj_get {K V} K_eq_dec k o.
Arguments obj_set {K V} K_eq_dec k v o.
Arguments Object_keys {K V} o.
Arguments Object_values {K V} o.

(* ================================================================== *)
(** ** Arrays of strings *)

(** [array.indexOf(value)], [None] standing for [-1]. *)
Fixpoint indexOf (value : string) (array : list string) : option nat :=
  match array with
  | [] => None
  | x :: rest =>
      if string_dec x value then Some 0
      else match indexOf value rest with
           | Some i => Some (S i)
           | None => None
           end
  end.

(** [array.includes(x)]. *)
Definition includes (A : Type) (A_eq_dec : forall x y : A, {x = y} + {x <> y})
    (x : A) (array : list A) : bool :=
  if in_dec A_eq_dec x array then true else false.

(** [array.filter(f)], where [f] receives the value, its index and the
    array: the elements of [l], which start at index [i] of [array]. *)
Fixpoint filter_from (A : Type) (f : A -> nat -> list A -> bool)
    (array : list A) (i : nat) (l : list A) : list A :=
  match l with
  | [] => []
  | x :: rest =>
      if f x i array then x :: filter_from f array (S i) rest
      else filter_from f array (S i) rest
  end.

Definition js_filter (A : Type) (f : A -> nat -> list A -> bool)
    (array : list A) : list A :=
  filter_from f array 0 array.

(** Modelled from the spec: [uniqueStrings] of [@/utils/data], the predicate
    handed to [filter] to "normalize to a deduplicated address list": a value
    is kept at the index of its first occurrence. *)
Definition uniqueStrings (value : string) (index : nat) (array : list string)
    : bool :=
  match indexOf value array with
  | Some i => i =? index
  | None => false
  end.

(* ================================================================== *)
(** ** Protocols, accounts and the adapters' address data *)

(** The enum of [@rotki/common/lib/blockchain]. *)
Module DefiProtocol.

Inductive t : Type :=
  | YEARN_VAULTS
  | YEARN_VAULTS_V2
  | AAVE
  | MAKERDAO_DSR
  | MAKERDAO_VAULTS
  | COMPOUND
  | UNISWAP
  | LIQUITY.

Definition eq_dec (x y : t) : {x = y} + {x <> y}.
Proof. decide equality. Defined.

End DefiProtocol.

Module Blockchain.
Inductive t : Type := ETH | BTC.
End Blockchain.

Record DefiAccount : Type := mkDefiAccount {
  address : string;
  chain : Blockchain.t;
  protocols : list DefiProtocol.t
}.

(** [AddressIndexed<T>]: an object keyed by address. *)
Definition AddressIndexed (T : Type) : Type := JsObject string T.

(** What [defiAccounts] reads from the adapter stores; [Any] is the type of
    the per-address payloads, which the derivation never inspects. *)
Record AdapterData (Any : Type) : Type := mkAdapterData {
  aaveBalances : AddressIndexed Any;
  aaveHistory : AddressIndexed Any;
  compoundBalances : AddressIndexed Any;
  (** [compoundHistory.events], each event with its [address] *)
  compoundHistory_events : list (string * Any);
  yearnV1Balances : AddressIndexed Any;
  yearnV1History : AddressIndexed Any;
  yearnV2Balances : AddressIndexed Any;
  yearnV2History : AddressIndexed Any;
  (** [dsrBalances.balances] *)
  dsrBalances_balances : AddressIndexed Any;
  dsrHistory : AddressIndexed Any
}.

Section DefiAccounts.
Variable Any : Type.

(** [history] is an object keyed by address ([inl]) or an array of
    addresses ([inr]). *)
Definition getProtocolAddresses (protocols : list DefiProtocol.t)
    (protocol : DefiProtocol.t) (balances : AddressIndexed Any)
    (history : AddressIndexed Any + list string) : list string :=
  let addresses : list string := [] in
  if (length protocols =? 0)
     || includes DefiProtocol.eq_dec protocol protocols
  then
    let uniqueAddresses :=
      js_filter uniqueStrings
        (Object_keys balances ++
         match history with
         | inr array => array
         | inl object => Object_keys object
         end) in
    addresses ++ uniqueAddresses
  else addresses.

(** The object [addresses]: the literal fixes the order of its keys, the
    five assignments that follow replace the values in place. *)
Definition addresses (protocols : list DefiProtocol.t) (d : AdapterData Any)
    : JsObject DefiProtocol.t (list string) :=
  let set := obj_set DefiProtocol.eq_dec in
  let addresses : JsObject DefiProtocol.t (list string) :=
    [ (DefiProtocol.MAKERDAO_DSR, []);
      (DefiProtocol.AAVE, []);
      (DefiProtocol.COMPOUND, []);
      (DefiProtocol.YEARN_VAULTS, []);
      (DefiProtocol.YEARN_VAULTS_V2, []) ] in
  let addresses :=
    set DefiProtocol.AAVE
      (getProtocolAddresses protocols DefiProtocol.AAVE
         (aaveBalances d) (inl (aaveHistory d))) addresses in
  let addresses :=
    set DefiProtocol.COMPOUND
      (getProtocolAddresses protocols DefiProtocol.COMPOUND
         (compoundBalances d) (inr (map fst (compoundHistory_events d))))
      addresses in
  let addresses :=
    set DefiProtocol.YEARN_VAULTS
      (getProtocolAddresses protocols DefiProtocol.YEARN_VAULTS
         (yearnV1Balances d) (inl (yearnV1History d))) addresses in
  let addresses :=
    set DefiProtocol.YEARN_VAULTS_V2
      (getProtocolAddresses protocols DefiProtocol.YEARN_VAULTS_V2
         (yearnV2Balances d) (inl (yearnV2History d))) addresses in
  set DefiProtocol.MAKERDAO_DSR
    (getProtocolAddresses protocols DefiProtocol.MAKERDAO_DSR
       (dsrBalances_balances d) (inl (dsrHistory d))) addresses.

(** The body of the inner loop: [accounts[address]] is pushed to when it
    exists and created otherwise. *)
Definition addAccount (selectedProtocol : DefiProtocol.t)
    (accounts : JsObject string DefiAccount) (addr : string)
    : JsObject string DefiAccount :=
  match obj_get string_dec addr accounts with
  | Some account =>
      obj_set string_dec addr
        (mkDefiAccount (address account) (chain account)
           (protocols account ++ [selectedProtocol]))
        accounts
  | None =>
      obj_set string_dec addr
        (mkDefiAccount addr Blockchain.ETH [selectedProtocol]) accounts
  end.

(** [for (const protocol in addresses)] with its inner
    [for (const address of addresses[protocol])]. *)
Definition collectAccounts
    (addresses : JsObject DefiProtocol.t (list string))
    : JsObject string DefiAccount :=
  fold_left
    (fun accounts '(selectedProtocol, perProtocolAddresses) =>
       fold_left (addAccount selectedProtocol) perProtocolAddresses accounts)
    addresses [].

Definition defiAccounts (protocols : list DefiProtocol.t)
    (d : AdapterData Any) : list DefiAccount :=
  Object_values (collectAccounts (addresses protocols d)).

End DefiAccounts.

(* ================================================================== *)
(** ** Loading status *)

Module Status.

Inductive t : Type :=
  | NOT_LOADED
  | LOADING
  | PARTIALLY_LOADED
  | REFRESHING
  | LOADED.

Definition eq_dec (x y : t) : {x = y} + {x <> y}.
Proof. decide equality. Defined.

Definition eqb (x y : t) : bool := if eq_dec x y then true else false.

End Status.

(** The members of the enum [Section] of [@/types/status] the store names. *)
Module SectionId.

Inductive t : Type :=
  | DEFI_OVERVIEW
  | DEFI_BALANCES
  | DEFI_AAVE_BALANCES
  | DEFI_COMPOUND_BALANCES
  | DEFI_YEARN_VAULTS_BALANCES
  | DEFI_YEARN_VAULTS_V2_BALANCES
  | DEFI_LIQUITY_BALANCES
  | DEFI_LENDING_HISTORY.

Definition eq_dec (x y : t) : {x = y} + {x <> y}.
Proof. decide equality. Defined.

End SectionId.

(** [useStatusUpdater(Section.DEFI_OVERVIEW)]: the section the unqualified
    [getStatus()], [setStatus(status)] and [fetchDisabled(refresh)] act on. *)
Definition defaultSection : SectionId.t := SectionId.DEFI_OVERVIEW.

(* ================================================================== *)
(** ** The overview payload and the protocol summaries *)

Record Balance : Type := mkBalance {
  amount : BigNumber;
  usdValue : BigNumber
}.

(** [entry.baseBalance], also the element type of [summary.assets]. *)
Record DefiAsset : Type := mkDefiAsset {
  tokenAddress : string;
  tokenName : string;
  tokenSymbol : string;
  balance : Balance
}.

Inductive BalanceType : Type := Asset | Liability.

Record DefiProtocolInfo : Type := mkDefiProtocolInfo {
  name : string;
  icon : string
}.

Module DefiProtocolData.
Record t : Type := make {
    protocol : DefiProtocolInfo;
    baseBalance : DefiAsset;
    balanceType : BalanceType
  }.
End DefiProtocolData.

(** Address to the entries fetched for it. *)
Definition AllDefiProtocols : Type := JsObject string (list DefiProtocolData.t).

Module TokenInfo.
Record t : Type := make {
    tokenName : string;
    tokenSymbol : string
  }.
End TokenInfo.

(** Optional fields are [option]s, [None] standing for [undefined] (and for
    [null] in [tokenInfo]). *)
Record DefiProtocolSummary : Type := mkDefiProtocolSummary {
  protocol : DefiProtocolInfo;
  balanceUsd : option BigNumber;
  assets : list DefiAsset;
  tokenInfo : option TokenInfo.t;
  deposits : bool;
  liabilities : bool;
  depositsUrl : option string;
  liabilitiesUrl : option string;
  totalCollateralUsd : BigNumber;
  totalDebtUsd : BigNumber;
  totalLendingDepositUsd : BigNumber
}.

Definition with_tokenInfo (s : DefiProtocolSummary) (ti : option TokenInfo.t)
    : DefiProtocolSummary :=
  mkDefiProtocolSummary (protocol s) (balanceUsd s) (assets s) ti
    (deposits s) (liabilities s) (depositsUrl s) (liabilitiesUrl s)
    (totalCollateralUsd s) (totalDebtUsd s) (totalLendingDepositUsd s).

Definition with_balanceUsd (s : DefiProtocolSummary) (b : option BigNumber)
    : DefiProtocolSummary :=
  mkDefiProtocolSummary (protocol s) b (assets s) (tokenInfo s)
    (deposits s) (liabilities s) (depositsUrl s) (liabilitiesUrl s)
    (totalCollateralUsd s) (totalDebtUsd s) (totalLendingDepositUsd s).

Definition with_assets (s : DefiProtocolSummary) (l : list DefiAsset)
    : DefiProtocolSummary :=
  mkDefiProtocolSummary (protocol s) (balanceUsd s) l (tokenInfo s)
    (deposits s) (liabilities s) (depositsUrl s) (liabilitiesUrl s)
    (totalCollateralUsd s) (totalDebtUsd s) (totalLendingDepositUsd s).

(** The result of [lendingStore.loanSummary(filter)]. *)
Module LoanSummary.
Record t : Type := make {
    totalCollateralUsd : BigNumber;
    totalDebt : BigNumber
  }.
End LoanSummary.

(** Localised text, unevaluated: [tc(key, undefined, params)]. *)
Record I18n : Type := tc {
  i18n_key : string;
  i18n_params : list (string * string)
}.

Record Notification : Type := mkNotification {
  title : I18n;
  message : I18n;
  display : bool
}.

(** The calls [fetchAllDefi] fans out to the protocol adapters. *)
Inductive AdapterFetch : Type :=
| aave_fetchBalances (refresh : bool)
| makerDao_fetchDSRBalances (refresh : bool)
| makerDao_fetchMakerDAOVaults (refresh : bool)
| compound_fetchBalances (refresh : bool)
| yearn_fetchBalances_V1 (refresh : bool)
| yearn_fetchBalances_V2 (refresh : bool)
| liquity_fetchBalances (refresh : bool).

(** The state the store reads and writes: its own [allProtocols], the status
    of each section, the totals the lending store computes, and the traces
    of its calls to the collaborators (notifications shown, overview tasks
    submitted, adapter fetches launched). *)
Record Store : Type := mkStore {
  allProtocols : AllDefiProtocols;
  getStatus : SectionId.t -> Status.t;
  loanSummary : list DefiProtocol.t -> LoanSummary.t;
  totalLendingDeposit : list DefiProtocol.t -> list string -> BigNumber;
  notifications : list Notification;
  submitted : nat;
  launched : list AdapterFetch
}.

(** The constants and pure helpers the store imports from
    [@/types/defi/protocols] and from the localisation: the display names of
    the protocols with a dedicated summary, the string value of each
    [DefiProtocol] member, the icon of a display name and the text of
    [t('defi_overview.multiple_assets')]. *)
Class Imports : Type := {
  AAVE : string;
  COMPOUND : string;
  LIQUITY : string;
  MAKERDAO_DSR : string;
  MAKERDAO_VAULTS : string;
  YEARN_FINANCE_VAULTS : string;
  YEARN_FINANCE_VAULTS_V2 : string;
  protocolValue : DefiProtocol.t -> string;
  getProtocolIcon : string -> string;
  multiple_assets : string
}.

(** A value or a thrown [TypeError]. *)
Inductive Result (A : Type) : Type :=
| Ok (a : A)
| TypeError.

Arguments Ok {A} a.
Arguments TypeError {A}.

Definition bind (A B : Type) (r : Result A) (k : A -> Result B) : Result B :=
  match r with
  | Ok a => k a
  | TypeError => TypeError
  end.

Notation "x <- r ;; k" := (bind r (fun x => k))
  (at level 61, r at next level, right associativity).

(** [array.findIndex(p)], [None] standing for [-1]. *)
Fixpoint findIndex (A : Type) (p : A -> bool) (array : list A) : option nat :=
  match array with
  | [] => None
  | x :: rest =>
      if p x then Some 0
      else match findIndex p rest with
           | Some i => Some (S i)
           | None => None
           end
  end.

(** [array[i] = v] for an index within the array. *)
Fixpoint array_set (A : Type) (i : nat) (v : A) (array : list A) : list A :=
  match array, i with
  | [], _ => []
  | _ :: rest, O => v :: rest
  | x :: rest, S j => x :: array_set j v rest
  end.

(** lodash's [sortBy(array, 'protocol.name')]: a stable ascending sort on
    the display name. *)
Fixpoint insertByName (s : DefiProtocolSummary) (sorted : list DefiProtocolSummary)
    : list DefiProtocolSummary :=
  match sorted with
  | [] => [s]
  | x :: rest =>
      if String.leb (name (protocol s)) (name (protocol x)) then s :: sorted
      else x :: insertByName s rest
  end.

Definition sortByName (array : list DefiProtocolSummary)
    : list DefiProtocolSummary :=
  fold_right insertByName [] array.

(* ================================================================== *)
(** ** The [overview] *)

Section Overview.
Context {imports : Imports}.
Variable st : Store.

Definition Summaries : Type := JsObject string DefiProtocolSummary.

Definition shouldDisplay (summary : DefiProtocolSummary) : bool :=
  let lending := BigNumber.gt (totalLendingDepositUsd summary) Zero in
  let debt := BigNumber.gt (totalDebtUsd summary) Zero in
  let balance :=
    match balanceUsd summary with
    | Some b => BigNumber.gt b Zero
    | None => false
    end in
  let collateral := BigNumber.gt (totalCollateralUsd summary) Zero in
  lending || debt || balance || collateral.

Definition statusReady (s : Status.t) : bool :=
  Status.eqb s Status.LOADED || Status.eqb s Status.REFRESHING.

Definition protocolSummary (protocol : DefiProtocol.t)
    (section : SectionId.t) (name : string)
    (noLiabilities noDeposits : bool) : option DefiProtocolSummary :=
  let currentStatus := getStatus st section in
  if negb (statusReady currentStatus) then None
  else
    let filter := [protocol] in
    let loans :=
      if noLiabilities then LoanSummary.make Zero Zero
      else loanSummary st filter in
    Some {|
      protocol := mkDefiProtocolInfo name (getProtocolIcon name);
      balanceUsd := None;
      liabilities := negb noLiabilities;
      deposits := negb noDeposits;
      tokenInfo := None;
      assets := [];
      liabilitiesUrl :=
        if noLiabilities then None
        else Some ("/defi/liabilities?protocol=" ++ protocolValue protocol)%string;
      depositsUrl :=
        if noDeposits then None
        else Some ("/defi/deposits?protocol=" ++ protocolValue protocol)%string;
      totalCollateralUsd := LoanSummary.totalCollateralUsd loans;
      totalDebtUsd := LoanSummary.totalDebt loans;
      totalLendingDepositUsd :=
        if noDeposits then Zero else totalLendingDeposit st filter []
    |}.

(** [if (s && shouldDisplay(s)) summary[key] = s]. *)
Definition storeDisplayed (summary : Summaries) (key : string)
    (s : option DefiProtocolSummary) : Summaries :=
  match s with
  | Some s' =>
      if shouldDisplay s' then obj_set string_dec key s' summary else summary
  | None => summary
  end.

(** Lines 280-303: the first entry of a protocol seeds its summary, a
    later one with another token name collapses [tokenInfo], which is
    written through ([tokenInfo!]) and so must not be [null]. *)
Definition seedOrCollapse (summary : Summaries) (entry : DefiProtocolData.t)
    : Result Summaries :=
  let protocol := name (DefiProtocolData.protocol entry) in
  let baseBalance := DefiProtocolData.baseBalance entry in
  match obj_get string_dec protocol summary with
  | None =>
      Ok (obj_set string_dec protocol
            {| protocol :=
                 mkDefiProtocolInfo (name (DefiProtocolData.protocol entry))
                   (getProtocolIcon protocol);
               balanceUsd := None;
               tokenInfo :=
                 Some (TokenInfo.make (tokenName baseBalance)
                         (tokenSymbol baseBalance));
               assets := [];
               deposits := false;
               liabilities := false;
               depositsUrl := None;
               liabilitiesUrl := None;
               totalCollateralUsd := Zero;
               totalDebtUsd := Zero;
               totalLendingDepositUsd := Zero |}
            summary)
  | Some current =>
      match tokenInfo current with
      | Some info =>
          if String.eqb (TokenInfo.tokenName info) (tokenName baseBalance)
          then Ok summary
          else
            Ok (obj_set string_dec protocol
                  (with_tokenInfo current
                     (Some (TokenInfo.make multiple_assets "")))
                  summary)
      | None => TypeError
      end
  end.

(** Lines 305-328: an [Asset] entry adds to [balanceUsd] and to the asset
    slot of its token address. *)
Definition addAsset (summary : Summaries) (entry : DefiProtocolData.t)
    : Result Summaries :=
  let protocol := name (DefiProtocolData.protocol entry) in
  let baseBalance := DefiProtocolData.baseBalance entry in
  match DefiProtocolData.balanceType entry with
  | Asset =>
      match obj_get string_dec protocol summary with
      | None => TypeError
      | Some current =>
          let previousBalance :=
            match balanceUsd current with
            | Some b => b
            | None => Zero
            end in
          let current :=
            with_balanceUsd current
              (Some (BigNumber.plus previousBalance
                       (usdValue (balance baseBalance)))) in
          let assetIndex :=
            findIndex
              (fun asset =>
                 String.eqb (tokenAddress asset) (tokenAddress baseBalance))
              (assets current) in
          match assetIndex with
          | Some i =>
              match nth_error (assets current) i with
              | Some asset =>
                  let usdValueSum :=
                    BigNumber.plus (usdValue (balance baseBalance))
                      (usdValue (balance asset)) in
                  let amountSum :=
                    BigNumber.plus (amount (balance baseBalance))
                      (amount (balance asset)) in
                  Ok (obj_set string_dec protocol
                        (with_assets current
                           (array_set i
                              (mkDefiAsset (tokenAddress asset)
                                 (tokenName asset) (tokenSymbol asset)
                                 (mkBalance amountSum usdValueSum))
                              (assets current)))
                        summary)
              | None => TypeError
              end
          | None =>
              Ok (obj_set string_dec protocol
                    (with_assets current (assets current ++ [baseBalance]))
                    summary)
          end
      end
  | Liability => Ok summary
  end.

(** The body of the inner loop, lines 222-328. *)
Definition accumulate (summary : Summaries) (entry : DefiProtocolData.t)
    : Result Summaries :=
  let protocol := name (DefiProtocolData.protocol entry) in
  if String.eqb protocol AAVE then
    Ok (storeDisplayed summary protocol
          (protocolSummary DefiProtocol.AAVE SectionId.DEFI_AAVE_BALANCES
             protocol false false))
  else if String.eqb protocol COMPOUND then
    Ok (storeDisplayed summary protocol
          (protocolSummary DefiProtocol.COMPOUND
             SectionId.DEFI_COMPOUND_BALANCES protocol false false))
  else if String.eqb protocol YEARN_FINANCE_VAULTS then
    Ok (storeDisplayed summary protocol
          (protocolSummary DefiProtocol.YEARN_VAULTS
             SectionId.DEFI_YEARN_VAULTS_BALANCES protocol true false))
  else if String.eqb protocol LIQUITY then
    Ok (storeDisplayed summary protocol
          (protocolSummary DefiProtocol.LIQUITY
             SectionId.DEFI_LIQUITY_BALANCES protocol false true))
  else
    summary <- seedOrCollapse summary entry ;;
    addAsset summary entry.

Fixpoint accumulateAll (summary : Summaries) (entries : list DefiProtocolData.t)
    : Result Summaries :=
  match entries with
  | [] => Ok summary
  | entry :: rest =>
      summary <- accumulate summary entry ;;
      accumulateAll summary rest
  end.

(** The outer loop, lines 219-330: [defiProtocols[address]] is iterated,
    which throws when it is [undefined]. *)
Fixpoint accumulateAddresses (defiProtocols : AllDefiProtocols)
    (summary : Summaries) (keys : list string) : Result Summaries :=
  match keys with
  | [] => Ok summary
  | address :: rest =>
      match obj_get string_dec address defiProtocols with
      | Some protocols =>
          summary <- accumulateAll summary protocols ;;
          accumulateAddresses defiProtocols summary rest
      | None => TypeError
      end
  end.

Definition makerDAODSRSummary : DefiProtocolSummary :=
  let filter := [DefiProtocol.MAKERDAO_DSR] in
  {| protocol := mkDefiProtocolInfo MAKERDAO_DSR (getProtocolIcon MAKERDAO_DSR);
     balanceUsd := None;
     tokenInfo := None;
     assets := [];
     depositsUrl := Some "/defi/deposits?protocol=makerdao";
     deposits := true;
     liabilities := false;
     liabilitiesUrl := None;
     totalCollateralUsd := Zero;
     totalDebtUsd := Zero;
     totalLendingDepositUsd := totalLendingDeposit st filter [] |}.

Definition makerDAOVaultSummary : DefiProtocolSummary :=
  let loans := loanSummary st [DefiProtocol.MAKERDAO_VAULTS] in
  {| protocol :=
       mkDefiProtocolInfo MAKERDAO_VAULTS (getProtocolIcon MAKERDAO_VAULTS);
     balanceUsd := None;
     tokenInfo := None;
     assets := [];
     deposits := false;
     liabilities := true;
     depositsUrl := None;
     liabilitiesUrl := Some "/defi/liabilities?protocol=makerdao";
     totalDebtUsd := LoanSummary.totalDebt loans;
     totalCollateralUsd := LoanSummary.totalCollateralUsd loans;
     totalLendingDepositUsd := Zero |}.

(** Lines 332-390: the summaries added once the loop is over. *)
Definition addLoaded (summary : Summaries) : Summaries :=
  let overviewStatus := getStatus st defaultSection in
  if statusReady overviewStatus then
    let summary :=
      if shouldDisplay makerDAODSRSummary
      then obj_set string_dec (protocolValue DefiProtocol.MAKERDAO_DSR)
             makerDAODSRSummary summary
      else summary in
    let summary :=
      if shouldDisplay makerDAOVaultSummary
      then obj_set string_dec (protocolValue DefiProtocol.MAKERDAO_VAULTS)
             makerDAOVaultSummary summary
      else summary in
    storeDisplayed summary (protocolValue DefiProtocol.YEARN_VAULTS_V2)
      (protocolSummary DefiProtocol.YEARN_VAULTS_V2
         SectionId.DEFI_YEARN_VAULTS_V2_BALANCES YEARN_FINANCE_VAULTS_V2
         true false)
  else summary.

(** The map [summary] when the computation reaches line 392. *)
Definition summaryMap : Result Summaries :=
  let defiProtocols := allProtocols st in
  summary <- accumulateAddresses defiProtocols [] (Object_keys defiProtocols) ;;
  Ok (addLoaded summary).

(** The predicate of the final [filter]; a [BigNumber] is an object, so
    [value.balanceUsd] is truthy exactly when it is set. *)
Definition listed (value : DefiProtocolSummary) : bool :=
  match balanceUsd value with
  | Some _ => true
  | None => deposits value || liabilities value
  end.

Definition overview : Result (list DefiProtocolSummary) :=
  summary <- summaryMap ;;
  Ok (filter listed (sortByName (Object_values summary))).

End Overview.

(* ================================================================== *)
(** ** Fetching the overview *)

Module JsError.
(** A thrown value, of which the handler reads [message]. *)
Record t : Type := make { message : string }.
End JsError.

(** How a promise settles. *)
Inductive Promise (A : Type) : Type :=
| Fulfilled (a : A)
| Rejected (e : JsError.t).

Arguments Fulfilled {A} a.
Arguments Rejected {A} e.

(** An [async] call after one of its synchronous segments: its promise has
    settled, or the call is suspended at an [await]. *)
Inductive Async (P : Type) : Type :=
| Return (r : Promise unit)
| Await (p : P).

Arguments Return {P} r.
Arguments Await {P} p.

(** The [await]s of [fetchDefiBalances]. *)
Inductive BalancesAwait : Type :=
| AwaitingCaller
| AwaitingTask (taskId : nat).

(** The [await]s of [fetchAllDefi]: on [fetchDefiBalances], whose own
    progress is carried along, and on the adapters. *)
Inductive AllDefiAwait : Type :=
| AwaitingBalances (inner : Async BalancesAwait)
| AwaitingAdapters.

Definition with_status (st : Store) (f : SectionId.t -> Status.t) : Store :=
  mkStore (allProtocols st) f (loanSummary st) (totalLendingDeposit st)
    (notifications st) (submitted st) (launched st).

Definition with_allProtocols (st : Store) (d : AllDefiProtocols) : Store :=
  mkStore d (getStatus st) (loanSummary st) (totalLendingDeposit st)
    (notifications st) (submitted st) (launched st).

(** Modelled from the spec: [setStatus] of [useStatusUpdater], which is not
    part of the sources: "set status ... for the ... section". *)
Definition setStatus (status : Status.t) (section : SectionId.t) (st : Store)
    : Store :=
  with_status st
    (fun s => if SectionId.eq_dec s section then status else getStatus st s).

(** Modelled from the spec: a section is in flight while its status is one
    of the loading ones. *)
Definition isLoading (status : Status.t) : bool :=
  match status with
  | Status.LOADING | Status.PARTIALLY_LOADED | Status.REFRESHING => true
  | Status.NOT_LOADED | Status.LOADED => false
  end.

(** Modelled from the spec: the guard [fetchDisabled] of [useStatusUpdater],
    which is not part of the sources: "if a fetch for the requested section
    is already in flight and [refresh] is false, no-op". *)
Definition fetchDisabled (refresh : bool) (section : SectionId.t) (st : Store)
    : bool :=
  negb refresh && isLoading (getStatus st section).

(** [notify] of the notifications store: the notification is shown. *)
Definition notify (n : Notification) (st : Store) : Store :=
  mkStore (allProtocols st) (getStatus st) (loanSummary st)
    (totalLendingDeposit st) (notifications st ++ [n]) (submitted st)
    (launched st).

(** [fetchAllDefiCaller()]: one more overview task is submitted. *)
Definition fetchAllDefiCaller (st : Store) : Store :=
  mkStore (allProtocols st) (getStatus st) (loanSummary st)
    (totalLendingDeposit st) (notifications st) (S (submitted st))
    (launched st).

(** The adapters' fetches are started. *)
Definition launch (calls : list AdapterFetch) (st : Store) : Store :=
  mkStore (allProtocols st) (getStatus st) (loanSummary st)
    (totalLendingDeposit st) (notifications st) (submitted st)
    (launched st ++ calls).

Section Fetch.
(** The result of the task as received, and the schema
    [AllDefiProtocols.parse], which returns the validated payload or
    throws. *)
Variable Raw : Type.
Variable parse : Raw -> JsError.t + AllDefiProtocols.

(** The [catch] block of [fetchDefiBalances], lines 417-427. *)
Definition catchError (e : JsError.t) (st : Store) : Store :=
  let title := tc "actions.defi.balances.error.title" [] in
  let message :=
    tc "actions.defi.balances.error.description"
      [("error", JsError.message e)] in
  notify (mkNotification title message true) st.

(** Lines 398-407, up to the first [await]. *)
Definition fetchDefiBalances_start (refresh : bool) (st : Store)
    : Store * Async BalancesAwait :=
  let section := SectionId.DEFI_BALANCES in
  if fetchDisabled refresh section st then (st, Return (Fulfilled tt))
  else
    let st := setStatus Status.LOADING section st in
    (fetchAllDefiCaller st, Await AwaitingCaller).

(** [await fetchAllDefiCaller()] has settled. *)
Definition fetchDefiBalances_submitted (r : Promise nat) (st : Store)
    : Store * Async BalancesAwait :=
  let section := SectionId.DEFI_BALANCES in
  match r with
  | Fulfilled taskId => (st, Await (AwaitingTask taskId))
  | Rejected e =>
      (setStatus Status.LOADED section (catchError e st),
       Return (Fulfilled tt))
  end.

(** [await awaitTask(...)] has settled: lines 416-428. *)
Definition fetchDefiBalances_resolved (r : Promise Raw) (st : Store)
    : Store * Async BalancesAwait :=
  let section := SectionId.DEFI_BALANCES in
  match r with
  | Fulfilled result =>
      match parse result with
      | inr parsed =>
          (setStatus Status.LOADED section (with_allProtocols st parsed),
           Return (Fulfilled tt))
      | inl e =>
          (setStatus Status.LOADED section (catchError e st),
           Return (Fulfilled tt))
      end
  | Rejected e =>
      (setStatus Status.LOADED section (catchError e st),
       Return (Fulfilled tt))
  end.

(** A call of [fetchDefiBalances] resumed at each of its [await]s, given
    how the submission and the task settle. *)
Definition fetchDefiBalances (refresh : bool) (caller : Promise nat)
    (task : nat -> Promise Raw) (st : Store) : Store * Async BalancesAwait :=
  match fetchDefiBalances_start refresh st with
  | (st, Await AwaitingCaller) =>
      match fetchDefiBalances_submitted caller st with
      | (st, Await (AwaitingTask taskId)) =>
          fetchDefiBalances_resolved (task taskId) st
      | other => other
      end
  | other => other
  end.

(** [fetchAllDefi], lines 432-438, up to its first [await]: the call of
    [fetchDefiBalances] runs to that call's first [await]. *)
Definition fetchAllDefi_start (refresh : bool) (st : Store)
    : Store * Async AllDefiAwait :=
  if fetchDisabled refresh defaultSection st then (st, Return (Fulfilled tt))
  else
    let newStatus := if refresh then Status.REFRESHING else Status.LOADING in
    let st := setStatus newStatus defaultSection st in
    let (st, inner) := fetchDefiBalances_start refresh st in
    (st, Await (AwaitingBalances inner)).

(** Lines 439-455, once [fetchDefiBalances] has settled. *)
Definition fetchAllDefi_balances (refresh : bool) (r : Promise unit)
    (st : Store) : Store * Async AllDefiAwait :=
  match r with
  | Rejected e => (st, Return (Rejected e))
  | Fulfilled _ =>
      let st := setStatus Status.PARTIALLY_LOADED defaultSection st in
      (launch
         [ aave_fetchBalances refresh;
           makerDao_fetchDSRBalances refresh;
           makerDao_fetchMakerDAOVaults refresh;
           compound_fetchBalances refresh;
           yearn_fetchBalances_V1 refresh;
           yearn_fetchBalances_V2 refresh;
           liquity_fetchBalances refresh ] st,
       Await AwaitingAdapters)
  end.

(** Line 457, once [Promise.allSettled] has. *)
Definition fetchAllDefi_settled (st : Store) : Store * Async AllDefiAwait :=
  (setStatus Status.LOADED defaultSection st, Return (Fulfilled tt)).

End Fetch.

(* ================================================================== *)
(** ** Vocabulary of the statements on [defiAccounts] *)

Section DefiAccountsSpec.
Variable Any : Type.

(** The protocols [defiAccounts] derives addresses for. *)
Definition eligible : list DefiProtocol.t :=
  [ DefiProtocol.AAVE; DefiProtocol.COMPOUND; DefiProtocol.YEARN_VAULTS;
    DefiProtocol.YEARN_VAULTS_V2; DefiProtocol.MAKERDAO_DSR ].

(** The addresses that are balance keys of a protocol. *)
Definition balanceKeys (d : AdapterData Any) (p : DefiProtocol.t)
    : list string :=
  match p with
  | DefiProtocol.AAVE => Object_keys (aaveBalances d)
  | DefiProtocol.COMPOUND => Object_keys (compoundBalances d)
  | DefiProtocol.YEARN_VAULTS => Object_keys (yearnV1Balances d)
  | DefiProtocol.YEARN_VAULTS_V2 => Object_keys (yearnV2Balances d)
  | DefiProtocol.MAKERDAO_DSR => Object_keys (dsrBalances_balances d)
  | _ => []
  end.

(** The addresses in the history of a protocol. *)
Definition historyAddresses (d : AdapterData Any) (p : DefiProtocol.t)
    : list string :=
  match p with
  | DefiProtocol.AAVE => Object_keys (aaveHistory d)
  | DefiProtocol.COMPOUND => map fst (compoundHistory_events d)
  | DefiProtocol.YEARN_VAULTS => Object_keys (yearnV1History d)
  | DefiProtocol.YEARN_VAULTS_V2 => Object_keys (yearnV2History d)
  | DefiProtocol.MAKERDAO_DSR => Object_keys (dsrHistory d)
  | _ => []
  end.

Definition references (d : AdapterData Any) (p : DefiProtocol.t)
    (a : string) : Prop :=
  In a (balanceKeys d p) \/ In a (historyAddresses d p).

(** A protocol passes the filter: the filter is empty or lists it. *)
Definition selected (filter : list DefiProtocol.t) (p : DefiProtocol.t)
    : Prop :=
  filter = [] \/ In p filter.

(** The account of an address, given the address list of each protocol:
    the protocols that list the address, in the order of the keys. *)
Definition accountOf (addresses : JsObject DefiProtocol.t (list string))
    (a : string) : DefiAccount :=
  mkDefiAccount a Blockchain.ETH
    (map fst (filter (fun entry => includes string_dec a (snd entry)) addresses)).

(** The addresses of all protocols, in the order the loops visit them. *)
Definition sightings (addresses : JsObject DefiProtocol.t (list string))
    : list string :=
  concat (Object_values addresses).

(** A list of protocols is written in the order [order]: it is the
    sublist of [order] made of its own members. *)
Definition orderedBy (order l : list DefiProtocol.t) : Prop :=
  l = filter (fun p => includes DefiProtocol.eq_dec p l) order.

End DefiAccountsSpec.

(** The pairs (protocol, address) in the order the two loops of
    [collectAccounts] visit them. *)
Definition visits (addresses : JsObject DefiProtocol.t (list string))
    : list (DefiProtocol.t * string) :=
  flat_map (fun entry => map (pair (fst entry)) (snd entry)) addresses.

Definition visit (accounts : JsObject string DefiAccount)
    (pa : DefiProtocol.t * string) : JsObject string DefiAccount :=
  addAccount (fst pa) accounts (snd pa).

(** The protocols that visit an address, in the order of the visits. *)
Definition protocolsOf (a : string) (ps : list (DefiProtocol.t * string))
    : list DefiProtocol.t :=
  map fst (filter (fun pa => if string_dec a (snd pa) then true else false) ps).

(** The object whose value at each key is a function of the key. *)
Definition tabulate (V : Type) (f : string -> V) (keys : list string)
    : JsObject string V :=
  map (fun k => (k, f k)) keys.

Definition override (V : Type) (f : string -> V) (k : string) (v : V)
    : string -> V :=
  fun k' => if string_dec k k' then v else f k'.

(** An address in the balances of Aave and of the DSR. *)
Definition aaveAndDsr : AdapterData unit :=
  {| aaveBalances := [("0xa", tt)];
     aaveHistory := [];
     compoundBalances := [];
     compoundHistory_events := [];
     yearnV1Balances := [];
     yearnV1History := [];
     yearnV2Balances := [];
     yearnV2History := [];
     dsrBalances_balances := [("0xa", tt)];
     dsrHistory := [] |}.

(* ================================================================== *)
(** ** Vocabulary of the statements on [overview] *)

Definition protocolName (entry : DefiProtocolData.t) : string :=
  name (DefiProtocolData.protocol entry).

(** The entries of the payload in the order the two loops visit them. *)
Definition entries (defiProtocols : AllDefiProtocols) : list DefiProtocolData.t :=
  flat_map
    (fun address =>
       match obj_get string_dec address defiProtocols with
       | Some protocols => protocols
       | None => []
       end)
    (Object_keys defiProtocols).

(** The entries of one protocol. *)
Definition entriesOf (p : string) (es : list DefiProtocolData.t)
    : list DefiProtocolData.t :=
  filter (fun entry => String.eqb (protocolName entry) p) es.

Definition isAsset (entry : DefiProtocolData.t) : bool :=
  match DefiProtocolData.balanceType entry with
  | Asset => true
  | Liability => false
  end.




Definition assetsOf (current : option DefiProtocolSummary) : list DefiAsset :=
  match current with
  | Some s => assets s
  | None => []
  end.

(** The slot of an asset once an entry of the same token is added to it. *)
Definition merged (asset : DefiAsset) (entry : DefiProtocolData.t) : DefiAsset :=
  let baseBalance := DefiProtocolData.baseBalance entry in
  mkDefiAsset (tokenAddress asset) (tokenName asset) (tokenSymbol asset)
    (mkBalance
       (BigNumber.plus (amount (balance baseBalance)) (amount (balance asset)))
       (BigNumber.plus (usdValue (balance baseBalance))
          (usdValue (balance asset)))).

(** The exact sum of a list of decimals. *)
Definition total (l : list BigNumber) : Q :=
  fold_right (fun x acc => Qplus (BigNumber.toQ x) acc) 0%Q l.


(** The predicate of [findIndex] at line 310. *)
Definition hasAddress (a : string) : DefiAsset -> bool :=
  fun asset => String.eqb (tokenAddress asset) a.


(** The fields an entry without dedicated summary never writes. *)
Definition sameFrame (s s' : DefiProtocolSummary) : Prop :=
  protocol s' = protocol s /\ deposits s' = deposits s /\
  liabilities s' = liabilities s.

Definition named (n : string) (s : DefiProtocolSummary) : bool :=
  String.eqb (name (protocol s)) n.

Section OverviewSpec.
Context {imports : Imports}.
Variable st : Store.

(** The display names whose entries leave the loop body early. *)
Definition bypassed (p : string) : bool :=
  String.eqb p AAVE || String.eqb p COMPOUND
  || String.eqb p YEARN_FINANCE_VAULTS || String.eqb p LIQUITY.

(** The display names of the summaries added after the loop. *)
Definition addedWhenLoaded (p : string) : bool :=
  String.eqb p MAKERDAO_DSR || String.eqb p MAKERDAO_VAULTS
  || String.eqb p YEARN_FINANCE_VAULTS_V2.

(** The dedicated summary the loop body computes for a display name. *)
Definition dedicated (p : string) : option DefiProtocolSummary :=
  if String.eqb p AAVE then
    protocolSummary st DefiProtocol.AAVE SectionId.DEFI_AAVE_BALANCES
      p false false
  else if String.eqb p COMPOUND then
    protocolSummary st DefiProtocol.COMPOUND SectionId.DEFI_COMPOUND_BALANCES
      p false false
  else if String.eqb p YEARN_FINANCE_VAULTS then
    protocolSummary st DefiProtocol.YEARN_VAULTS
      SectionId.DEFI_YEARN_VAULTS_BALANCES p true false
  else if String.eqb p LIQUITY then
    protocolSummary st DefiProtocol.LIQUITY SectionId.DEFI_LIQUITY_BALANCES
      p false true
  else None.

(** [tokenInfo] once collapsed. *)
Definition collapsed : TokenInfo.t := TokenInfo.make multiple_assets "".

(** What lines 280-303 do to [summary[protocol]], [current] being its value
    when the entry is reached. *)
Definition seedStep (current : option DefiProtocolSummary)
    (entry : DefiProtocolData.t) : Result DefiProtocolSummary :=
  let baseBalance := DefiProtocolData.baseBalance entry in
  match current with
  | None =>
      Ok {| protocol :=
              mkDefiProtocolInfo (protocolName entry)
                (getProtocolIcon (protocolName entry));
            balanceUsd := None;
            tokenInfo :=
              Some (TokenInfo.make (tokenName baseBalance)
                      (tokenSymbol baseBalance));
            assets := [];
            deposits := false;
            liabilities := false;
            depositsUrl := None;
            liabilitiesUrl := None;
            totalCollateralUsd := Zero;
            totalDebtUsd := Zero;
            totalLendingDepositUsd := Zero |}
  | Some current =>
      match tokenInfo current with
      | Some info =>
          if String.eqb (TokenInfo.tokenName info) (tokenName baseBalance)
          then Ok current
          else Ok (with_tokenInfo current (Some collapsed))
      | None => TypeError
      end
  end.

(** What lines 305-328 do to [summary[protocol]]. *)
Definition assetStep (current : DefiProtocolSummary)
    (entry : DefiProtocolData.t) : Result DefiProtocolSummary :=
  let baseBalance := DefiProtocolData.baseBalance entry in
  match DefiProtocolData.balanceType entry with
  | Asset =>
      let previousBalance :=
        match balanceUsd current with
        | Some b => b
        | None => Zero
        end in
      let current :=
        with_balanceUsd current
          (Some (BigNumber.plus previousBalance
                   (usdValue (balance baseBalance)))) in
      match
        findIndex
          (fun asset =>
             String.eqb (tokenAddress asset) (tokenAddress baseBalance))
          (assets current)
      with
      | Some i =>
          match nth_error (assets current) i with
          | Some asset =>
              Ok (with_assets current
                    (array_set i
                       (mkDefiAsset (tokenAddress asset) (tokenName asset)
                          (tokenSymbol asset)
                          (mkBalance
                             (BigNumber.plus (amount (balance baseBalance))
                                (amount (balance asset)))
                             (BigNumber.plus (usdValue (balance baseBalance))
                                (usdValue (balance asset)))))
                       (assets current)))
          | None => TypeError
          end
      | None => Ok (with_assets current (assets current ++ [baseBalance]))
      end
  | Liability => Ok current
  end.

(** What one entry of a protocol without a dedicated summary does to
    [summary[protocol]]. *)
Definition genericStep (current : option DefiProtocolSummary)
    (entry : DefiProtocolData.t) : Result DefiProtocolSummary :=
  seeded <- seedStep current entry ;;
  assetStep seeded entry.

(** The summary of a protocol after a run of its entries. *)
Fixpoint foldGeneric (current : option DefiProtocolSummary)
    (es : list DefiProtocolData.t) : Result (option DefiProtocolSummary) :=
  match es with
  | [] => Ok current
  | entry :: rest =>
      next <- genericStep current entry ;;
      foldGeneric (Some next) rest
  end.

(** A summary as the loop stores it under the key [k]. *)
Definition stored (k : string) (s : DefiProtocolSummary) : Prop :=
  name (protocol s) = k /\
  if bypassed k
  then dedicated k = Some s /\ shouldDisplay s = true
  else tokenInfo s <> None /\ deposits s = false /\ liabilities s = false.

Definition wellFormed (summary : Summaries) : Prop :=
  NoDup (Object_keys summary) /\
  forall k s, obj_get string_dec k summary = Some s -> stored k s.

(** What a key of the final map holds: what the loop stored under it, or
    one of the summaries added after the loop. *)
Definition assembled (loop : Summaries) (k : string)
    (s : DefiProtocolSummary) : Prop :=
  (obj_get string_dec k loop = Some s /\ stored k s) \/
  (addedWhenLoaded (name (protocol s)) = true /\ listed s = true).

End OverviewSpec.

(* ================================================================== *)
(** ** Concrete constants and states *)

(** An instance of the imports: the display names and the enum values as in
    rotki, where a display name ('MakerDAO DSR') differs from the value of
    the enum member ('makerdao_dsr'); the icon and the label are stand-ins. *)
Definition rotki : Imports :=
  {| AAVE := "Aave";
     COMPOUND := "Compound";
     LIQUITY := "Liquity";
     MAKERDAO_DSR := "MakerDAO DSR";
     MAKERDAO_VAULTS := "MakerDAO Vaults";
     YEARN_FINANCE_VAULTS := "yearn.finance Vaults";
     YEARN_FINANCE_VAULTS_V2 := "yearn.finance Vaults v2";
     protocolValue := fun p =>
       match p with
       | DefiProtocol.YEARN_VAULTS => "yearn_vaults"
       | DefiProtocol.YEARN_VAULTS_V2 => "yearn_vaults_v2"
       | DefiProtocol.AAVE => "aave"
       | DefiProtocol.MAKERDAO_DSR => "makerdao_dsr"
       | DefiProtocol.MAKERDAO_VAULTS => "makerdao_vaults"
       | DefiProtocol.COMPOUND => "compound"
       | DefiProtocol.UNISWAP => "uniswap"
       | DefiProtocol.LIQUITY => "liquity"
       end;
     getProtocolIcon := fun name => String.append name ".svg";
     multiple_assets := "Multiple assets" |}.

Definition entryOf (protocol tokenAddress tokenName tokenSymbol : string)
    (amount usdValue : Z) (balanceType : BalanceType) : DefiProtocolData.t :=
  DefiProtocolData.make (mkDefiProtocolInfo protocol "")
    (mkDefiAsset tokenAddress tokenName tokenSymbol
       (mkBalance (BigNumber.of_Z amount) (BigNumber.of_Z usdValue)))
    balanceType.

(** A store with the given payload, every section in the given status,
    [deposit] as lending deposit of every protocol and no loans. *)
Definition storeOf (defiProtocols : AllDefiProtocols) (status : Status.t)
    (deposit : Z) : Store :=
  {| allProtocols := defiProtocols;
     getStatus := fun _ => status;
     loanSummary := fun _ => LoanSummary.make Zero Zero;
     totalLendingDeposit := fun _ _ => BigNumber.of_Z deposit;
     notifications := [];
     submitted := 0;
     launched := [] |}.

(** One asset entry worth nothing, of a protocol without dedicated summary. *)
Definition zeroBalance : Store :=
  storeOf [("0xabc", [entryOf "Curve" "0xT" "Dai" "DAI" 0 0 Asset])]
    Status.NOT_LOADED 0.

(** An entry whose display name is that of the DSR, with the overview
    loaded and a DSR deposit. *)
Definition makerTwice : Store :=
  storeOf [("0xabc", [entryOf "MakerDAO DSR" "0xT" "Dai" "DAI" 5 5 Asset])]
    Status.LOADED 10.

(** A protocol with liabilities only. *)
Definition liabilitiesOnly : Store :=
  storeOf
    [("0xabc", [entryOf "Curve" "0xT" "Dai" "DAI" 7 7 Liability;
                entryOf "Curve" "0xU" "Tether" "USDT" 3 3 Liability])]
    Status.LOADED 0.

(** The two entries of the example of the specification, and a third one. *)
Definition sameToken : list DefiProtocolData.t :=
  [ entryOf "X" "0xA" "Dai" "DAI" 10 100 Asset;
    entryOf "X" "0xA" "Dai" "DAI" 5 50 Asset ].

Definition twoNames : list DefiProtocolData.t :=
  [ entryOf "X" "0xA" "Dai" "DAI" 10 100 Asset;
    entryOf "X" "0xB" "Tether" "USDT" 5 50 Asset ].

(* ================================================================== *)
(** ** Vocabulary of the statements on the fetch *)

(** The error a run of [fetchDefiBalances] meets before [allProtocols] is
    replaced, if any: the submission is rejected, the task is, or the
    payload does not validate. *)
Definition failure (Raw : Type) (parse : Raw -> JsError.t + AllDefiProtocols)
    (caller : Promise nat) (task : nat -> Promise Raw) : option JsError.t :=
  match caller with
  | Rejected e => Some e
  | Fulfilled taskId =>
      match task taskId with
      | Rejected e => Some e
      | Fulfilled result =>
          match parse result with
          | inl e => Some e
          | inr _ => None
          end
      end
  end.

(** The notification of the [catch] block for an error. *)
Definition errorNotification (e : JsError.t) : Notification :=
  mkNotification (tc "actions.defi.balances.error.title" [])
    (tc "actions.defi.balances.error.description"
       [("error", JsError.message e)])
    true.

(** A schema that rejects every payload. *)
Definition rejectAll (result : unit) : JsError.t + AllDefiProtocols :=
  inl (JsError.make "Invalid payload").

(** A schema that accepts the payload as it is. *)
Definition acceptAll (result : AllDefiProtocols)
    : JsError.t + AllDefiProtocols :=
  inr result.

Definition idle : Store := storeOf [] Status.NOT_LOADED 0.

Definition loadingBalances : Store :=
  setStatus Status.LOADING SectionId.DEFI_BALANCES
    (setStatus Status.LOADING defaultSection idle).

(* ================================================================== *)
(** ** A complete run of [fetchAllDefi] *)

Section FetchAll.
Variable Raw : Type.
Variable parse : Raw -> JsError.t + AllDefiProtocols.

(** The call of [fetchDefiBalances] made by [fetchAllDefi], resumed at its
    [await]s to its end. *)
Definition resumeBalances (inner : Async BalancesAwait) (caller : Promise nat)
    (task : nat -> Promise Raw) (st : Store) : Store * Async BalancesAwait :=
  match inner with
  | Return r => (st, Return r)
  | Await AwaitingCaller =>
      match fetchDefiBalances_submitted caller st with
      | (st, Await (AwaitingTask taskId)) =>
          fetchDefiBalances_resolved parse (task taskId) st
      | other => other
      end
  | Await (AwaitingTask taskId) =>
      fetchDefiBalances_resolved parse (task taskId) st
  end.

(** [fetchAllDefi] up to the [await] on the adapters: lines 432-455. *)
Definition fetchAllDefi_launch (refresh : bool) (caller : Promise nat)
    (task : nat -> Promise Raw) (st : Store) : Store * Async AllDefiAwait :=
  match fetchAllDefi_start refresh st with
  | (st, Await (AwaitingBalances inner)) =>
      match resumeBalances inner caller task st with
      | (st, Return r) => fetchAllDefi_balances refresh r st
      | (st, Await p) => (st, Await (AwaitingBalances (Await p)))
      end
  | other => other
  end.

(** A call of [fetchAllDefi] run to its end; [adapters] is what the
    adapters' fetches do to the state while they are awaited. *)
Definition fetchAllDefi (refresh : bool) (caller : Promise nat)
    (task : nat -> Promise Raw) (adapters : Store -> Store) (st : Store)
    : Store * Async AllDefiAwait :=
  match fetchAllDefi_launch refresh caller task st with
  | (st, Await AwaitingAdapters) => fetchAllDefi_settled (adapters st)
  | other => other
  end.

End FetchAll.

(** The adapter fetches of [Promise.allSettled], lines 441-455. *)
Definition adapterFetches (refresh : bool) : list AdapterFetch :=
  [ aave_fetchBalances refresh;
    makerDao_fetchDSRBalances refresh;
    makerDao_fetchMakerDAOVaults refresh;
    compound_fetchBalances refresh;
    yearn_fetchBalances_V1 refresh;
    yearn_fetchBalances_V2 refresh;
    liquity_fetchBalances refresh ].

(* ================================================================== *)
(** ** Resetting *)

(** The enum [Module] of [@/types/modules]: the members the store registers
    a reset function for, and any other member. *)
Module ModuleId.

Inductive t : Type :=
| MAKERDAO_DSR
| MAKERDAO_VAULTS
| AAVE
| COMPOUND
| YEARN
| YEARN_V2
| UNISWAP
| SUSHISWAP
| BALANCER
| LIQUITY
| other (value : string).

Definition eq_dec (x y : t) : {x = y} + {x <> y}.
Proof. decide equality. apply string_dec. Defined.

End ModuleId.

Module ProtocolVersion.
Inductive t : Type := V1 | V2.
End ProtocolVersion.

(** The argument of [resetState]. *)
Inductive ResetStateParams : Type :=
| ALL_MODULES
| ALL_DECENTRALIZED_EXCHANGES
| aModule (module : ModuleId.t).

(** The calls to the [reset] of the adapters. *)
Inductive ResetCall : Type :=
| makerDao_reset (module : ModuleId.t)
| aave_reset
| compound_reset
| yearn_reset (version : ProtocolVersion.t)
| uniswap_reset
| sushiswap_reset
| balancer_reset
| liquity_reset.

(** The calls to the [fetchHistory] of the adapters. *)
Inductive HistoryFetch : Type :=
| yearn_fetchHistory (refresh reset : bool) (version : ProtocolVersion.t)
| aave_fetchHistory (refresh reset : bool).

(** The store with what [resetDB], [resetState] and [reset] read and write
    besides: the premium flag and the traces of the calls to the adapters,
    to the airdrop store and to the logger. *)
Record Session : Type := mkSession {
  store : Store;
  premium : bool;
  historyFetches : list HistoryFetch;
  resetCalls : list ResetCall;
  airdropResets : nat;
  (** [logger.warn(`Missing reset function for ${module}`)] *)
  missingReset : list ModuleId.t
}.

Definition with_store (w : Session) (st : Store) : Session :=
  mkSession st (premium w) (historyFetches w) (resetCalls w)
    (airdropResets w) (missingReset w).

Definition fetchHistory (call : HistoryFetch) (w : Session) : Session :=
  mkSession (store w) (premium w) (historyFetches w ++ [call]) (resetCalls w)
    (airdropResets w) (missingReset w).

Definition callReset (call : ResetCall) (w : Session) : Session :=
  mkSession (store w) (premium w) (historyFetches w) (resetCalls w ++ [call])
    (airdropResets w) (missingReset w).

Definition airdrop_reset (w : Session) : Session :=
  mkSession (store w) (premium w) (historyFetches w) (resetCalls w)
    (S (airdropResets w)) (missingReset w).

Definition logger_warn (module : ModuleId.t) (w : Session) : Session :=
  mkSession (store w) (premium w) (historyFetches w) (resetCalls w)
    (airdropResets w) (missingReset w ++ [module]).

(** Modelled from the spec: [loading] of [useStatusUpdater], which is not
    part of the sources: a reset "is already in flight for the
    lending-history section". *)
Definition loading (section : SectionId.t) (st : Store) : bool :=
  isLoading (getStatus st section).

(** The [await] of [resetDB], on the history fetches it has started. *)
Inductive ResetDBAwait : Type :=
| AwaitingAll (toReset : list HistoryFetch).

(** [Promise.all]: fulfilled when every promise is, rejected with the reason
    of the first promise that rejects; [settled] lists how the promises
    settle, in the order in which they do. *)
Fixpoint Promise_all (settled : list (Promise unit)) : Promise unit :=
  match settled with
  | [] => Fulfilled tt
  | Fulfilled _ :: rest => Promise_all rest
  | Rejected e :: _ => Rejected e
  end.

(** [resetDB], lines 460-495, up to its [await]: each [push] starts the
    history fetch it pushes. *)
Definition resetDB_start (protocols : list DefiProtocol.t) (w : Session)
    : Session * Async ResetDBAwait :=
  let premiumSection := SectionId.DEFI_LENDING_HISTORY in
  if negb (premium w) || loading premiumSection (store w)
  then (w, Return (Fulfilled tt))
  else
    let w := with_store w (setStatus Status.REFRESHING premiumSection (store w)) in
    let toReset : list HistoryFetch := [] in
    let toReset :=
      if includes DefiProtocol.eq_dec DefiProtocol.YEARN_VAULTS protocols
      then toReset ++ [yearn_fetchHistory true true ProtocolVersion.V1]
      else toReset in
    let toReset :=
      if includes DefiProtocol.eq_dec DefiProtocol.YEARN_VAULTS_V2 protocols
      then toReset ++ [yearn_fetchHistory true true ProtocolVersion.V2]
      else toReset in
    let toReset :=
      if includes DefiProtocol.eq_dec DefiProtocol.AAVE protocols
      then toReset ++ [aave_fetchHistory true true]
      else toReset in
    (fold_left (fun w call => fetchHistory call w) toReset w,
     Await (AwaitingAll toReset)).

(** Line 497, once [Promise.all] has settled; a rejection leaves the
    function at the [await]. *)
Definition resetDB_settled (r : Promise unit) (w : Session)
    : Session * Async ResetDBAwait :=
  match r with
  | Fulfilled _ =>
      (with_store w
         (setStatus Status.LOADED SectionId.DEFI_LENDING_HISTORY (store w)),
       Return (Fulfilled tt))
  | Rejected e => (w, Return (Rejected e))
  end.

(** A call of [resetDB] run to its end, given how the history fetches
    settle. *)
Definition resetDB (protocols : list DefiProtocol.t)
    (settled : list (Promise unit)) (w : Session)
    : Session * Async ResetDBAwait :=
  match resetDB_start protocols w with
  | (w, Await (AwaitingAll _)) => resetDB_settled (Promise_all settled) w
  | other => other
  end.

(** The object [modules], lines 500-511: each function is the adapter call
    it makes. *)
Definition modules : JsObject ModuleId.t ResetCall :=
  [ (ModuleId.MAKERDAO_DSR, makerDao_reset ModuleId.MAKERDAO_DSR);
    (ModuleId.MAKERDAO_VAULTS, makerDao_reset ModuleId.MAKERDAO_VAULTS);
    (ModuleId.AAVE, aave_reset);
    (ModuleId.COMPOUND, compound_reset);
    (ModuleId.YEARN, yearn_reset ProtocolVersion.V1);
    (ModuleId.YEARN_V2, yearn_reset ProtocolVersion.V2);
    (ModuleId.UNISWAP, uniswap_reset);
    (ModuleId.SUSHISWAP, sushiswap_reset);
    (ModuleId.BALANCER, balancer_reset);
    (ModuleId.LIQUITY, liquity_reset) ].

(** [modules[mod]()] for each [mod] of a list, in order; calling
    [undefined] throws. *)
Fixpoint callEach (mods : list ModuleId.t) (w : Session) : Result Session :=
  match mods with
  | [] => Ok w
  | module :: rest =>
      match obj_get ModuleId.eq_dec module modules with
      | Some reset => callEach rest (callReset reset w)
      | None => TypeError
      end
  end.

Definition resetState (module : ResetStateParams) (w : Session)
    : Result Session :=
  match module with
  | ALL_DECENTRALIZED_EXCHANGES =>
      callEach [ModuleId.UNISWAP; ModuleId.SUSHISWAP; ModuleId.BALANCER] w
  | ALL_MODULES => callEach (Object_keys modules) w
  | aModule module =>
      let reset := obj_get ModuleId.eq_dec module modules in
      match reset with
      | None => Ok (logger_warn module w)
      | Some reset => Ok (callReset reset w)
      end
  end.

(** [reset], lines 533-537. *)
Definition reset (w : Session) : Result Session :=
  let w := with_store w (with_allProtocols (store w) []) in
  let w := airdrop_reset w in
  resetState ALL_MODULES w.

(** The watcher of [premium], lines 539-543, called with the new value. *)
Definition premiumChanged (premium : bool) (w : Session) : Result Session :=
  if negb premium then reset w else Ok w.

(* ================================================================== *)
(** ** Vocabulary of the further statements on [overview] *)

(** The order of [sortBy(..., 'protocol.name')]. *)
Definition byName (s s' : DefiProtocolSummary) : Prop :=
  String.leb (name (protocol s)) (name (protocol s')) = true.

(** The USD values of the [Asset] entries. *)
Definition usdValues (es : list DefiProtocolData.t) : list BigNumber :=
  map (fun entry => usdValue (balance (DefiProtocolData.baseBalance entry)))
    (filter isAsset es).

(** The USD values of the slots of a summary. *)
Definition slotValues (slots : list DefiAsset) : list BigNumber :=
  map (fun slot => usdValue (balance slot)) slots.

Definition balanceOf (current : option DefiProtocolSummary)
    : option BigNumber :=
  match current with
  | Some s => balanceUsd s
  | None => None
  end.

(** [balanceUsd] is set when there is an [Asset] entry among [es], and is
    then the exact sum of the USD values of these entries and of the slots. *)
Definition balanceSums (current : option DefiProtocolSummary)
    (es : list DefiProtocolData.t) : Prop :=
  match balanceOf current with
  | Some b =>
      filter isAsset es <> [] /\
      Qeq (BigNumber.toQ b) (total (usdValues es)) /\
      Qeq (BigNumber.toQ b) (total (slotValues (assetsOf current)))
  | None => filter isAsset es = [] /\ assetsOf current = []
  end.

(* ================================================================== *)
(** ** Vocabulary of the further statements on the fetch *)

(** What a run of [fetchDefiBalances] leaves as it was: the status of the
    other sections, the lending totals and the adapter fetches. *)
Definition sameElsewhere (st st' : Store) : Prop :=
  (forall section, section <> SectionId.DEFI_BALANCES ->
     getStatus st' section = getStatus st section) /\
  loanSummary st' = loanSummary st /\
  totalLendingDeposit st' = totalLendingDeposit st /\
  launched st' = launched st.

(** The status [fetchAllDefi] sets first. *)
Definition startedStatus (refresh : bool) : Status.t :=
  if refresh then Status.REFRESHING else Status.LOADING.

(* ================================================================== *)
(** ** Vocabulary of the statements on the resets *)

(** The history fetch [resetDB] makes for each protocol it handles. *)
Definition historyOf : list (DefiProtocol.t * HistoryFetch) :=
  [ (DefiProtocol.YEARN_VAULTS, yearn_fetchHistory true true ProtocolVersion.V1);
    (DefiProtocol.YEARN_VAULTS_V2,
     yearn_fetchHistory true true ProtocolVersion.V2);
    (DefiProtocol.AAVE, aave_fetchHistory true true) ].

(** The history fetches of the protocols of a list. *)
Definition wantedHistory (protocols : list DefiProtocol.t)
    : list HistoryFetch :=
  map snd
    (filter (fun entry => includes DefiProtocol.eq_dec (fst entry) protocols)
       historyOf).

(** What [resetState] leaves as it was. *)
Definition sameButResets (w w' : Session) : Prop :=
  store w' = store w /\ premium w' = premium w /\
  historyFetches w' = historyFetches w /\
  airdropResets w' = airdropResets w.

Definition session (st : Store) (premium : bool) : Session :=
  mkSession st premium [] [] 0 [].

(* ================================================================== *)
(** * Properties *)

(* ================================================================== *)
(** ** Facts on decimals *)

Lemma scale_pos (n : nat) : (0 < BigNumber.scale n)%Z.
Proof. unfold BigNumber.scale. apply Z.pow_pos_nonneg; lia. Qed.

Lemma scale_add (n m : nat) :
  BigNumber.scale (n + m) = (BigNumber.scale n * BigNumber.scale m)%Z.
Proof.
  unfold BigNumber.scale. rewrite Nat2Z.inj_add, Z.pow_add_r; lia.
Qed.

Lemma toQ_align (a : BigNumber) (d : nat) :
  BigNumber.decimals a <= d ->
  Qeq (BigNumber.toQ a)
      (Qmake (BigNumber.align a d) (Z.to_pos (BigNumber.scale d))).
Proof.
  intros Hd. unfold BigNumber.toQ, BigNumber.align, Qeq. simpl.
  rewrite !Z2Pos.id by apply scale_pos.
  replace d with ((d - BigNumber.decimals a) + BigNumber.decimals a) at 1 by lia.
  rewrite scale_add. ring.
Qed.

Lemma Qplus_same_den (x y : Z) (p : positive) :
  Qeq (Qplus (Qmake x p) (Qmake y p)) (Qmake (x + y) p).
Proof. unfold Qeq, Qplus. simpl. rewrite Pos2Z.inj_mul. ring. Qed.

Lemma toQ_plus (a b : BigNumber) :
  Qeq (BigNumber.toQ (BigNumber.plus a b))
      (Qplus (BigNumber.toQ a) (BigNumber.toQ b)).
Proof.
  set (d := Nat.max (BigNumber.decimals a) (BigNumber.decimals b)).
  rewrite (@toQ_align a d) by (subst d; lia).
  rewrite (@toQ_align b d) by (subst d; lia).
  rewrite Qplus_same_den. reflexivity.
Qed.

Lemma toQ_Zero : Qeq (BigNumber.toQ Zero) 0%Q.
Proof. reflexivity. Qed.

Lemma gt_Zero (a : BigNumber) :
  BigNumber.gt a Zero = true <-> (0 < BigNumber.coefficient a)%Z.
Proof.
  unfold BigNumber.gt, BigNumber.align, Zero, BigNumber.of_Z. simpl.
  rewrite Z.gtb_lt.
  pose proof (scale_pos (Nat.max (BigNumber.decimals a) 0 - BigNumber.decimals a)).
  pose proof (scale_pos (Nat.max (BigNumber.decimals a) 0 - 0)).
  nia.
Qed.

(* ================================================================== *)
(** ** Facts on objects used as maps *)

Section JsObjectFacts.
Variables K V : Type.
Variable K_eq_dec : forall x y : K, {x = y} + {x <> y}.
Implicit Types (o : JsObject K V) (k : K) (v : V).

Lemma obj_get_set_same o k v :
  obj_get K_eq_dec k (obj_set K_eq_dec k v o) = Some v.
Proof.
  induction o as [|[k' v'] o IH]; simpl.
  - destruct (K_eq_dec k k); congruence.
  - destruct (K_eq_dec k k') as [E|N]; simpl.
    + destruct (K_eq_dec k k'); congruence.
    + destruct (K_eq_dec k k'); congruence.
Qed.

Lemma obj_get_set_other o k k' v :
  k' <> k ->
  obj_get K_eq_dec k' (obj_set K_eq_dec k v o) = obj_get K_eq_dec k' o.
Proof.
  intros Hk. induction o as [|[k1 v1] o IH]; simpl.
  - destruct (K_eq_dec k' k); congruence.
  - destruct (K_eq_dec k k1) as [E|N]; simpl.
    + subst k1. destruct (K_eq_dec k' k); congruence.
    + destruct (K_eq_dec k' k1); congruence.
Qed.

Lemma obj_get_None o k :
  obj_get K_eq_dec k o = None <-> ~ In k (Object_keys o).
Proof.
  induction o as [|[k' v'] o IH]; simpl.
  - tauto.
  - destruct (K_eq_dec k k') as [E|N].
    + subst. split; [discriminate | tauto].
    + rewrite IH. split; [intros H [E|I]; [congruence | tauto] | tauto].
Qed.

Lemma obj_get_In o k v :
  obj_get K_eq_dec k o = Some v -> In (k, v) o.
Proof.
  induction o as [|[k' v'] o IH]; simpl; [discriminate|].
  destruct (K_eq_dec k k') as [E|N].
  - intros [= ->]. subst. now left.
  - intros H. right. now apply IH.
Qed.

Lemma obj_get_NoDup o k v :
  NoDup (Object_keys o) -> In (k, v) o -> obj_get K_eq_dec k o = Some v.
Proof.
  induction o as [|[k' v'] o IH]; simpl; [tauto|].
  intros Hnd [E|I].
  - inversion E; subst. destruct (K_eq_dec k k); congruence.
  - inversion Hnd as [|? ? Hn Hnd']; subst.
    destruct (K_eq_dec k k') as [E|N].
    + subst. exfalso. apply Hn. change k' with (fst (k', v)).
      now apply in_map.
    + now apply IH.
Qed.

(** Assigning to a key of the object keeps the keys and their order;
    assigning to a new key appends it. *)
Lemma keys_obj_set o k v :
  Object_keys (obj_set K_eq_dec k v o) =
  if in_dec K_eq_dec k (Object_keys o) then Object_keys o
  else Object_keys o ++ [k].
Proof.
  induction o as [|[k' v'] o IH]; simpl.
  - reflexivity.
  - destruct (K_eq_dec k k') as [E|N]; simpl.
    + subst. destruct (K_eq_dec k' k'); [reflexivity | congruence].
    + rewrite IH. destruct (K_eq_dec k' k); [congruence|].
      destruct (in_dec K_eq_dec k (Object_keys o)); reflexivity.
Qed.

Lemma NoDup_snoc (A : Type) (l : list A) (x : A) :
  NoDup l -> ~ In x l -> NoDup (l ++ [x]).
Proof.
  intros Hl Hx. induction Hl as [|y l Hy Hl IH]; simpl.
  - constructor; [tauto | constructor].
  - constructor.
    + rewrite in_app_iff. simpl in *. intuition congruence.
    + apply IH. simpl in Hx. tauto.
Qed.

Lemma NoDup_keys_obj_set o k v :
  NoDup (Object_keys o) -> NoDup (Object_keys (obj_set K_eq_dec k v o)).
Proof.
  intros H. rewrite keys_obj_set.
  destruct (in_dec K_eq_dec k (Object_keys o)); [assumption|].
  now apply NoDup_snoc.
Qed.

Lemma In_keys_obj_set o k v k' :
  In k' (Object_keys (obj_set K_eq_dec k v o)) <->
  k' = k \/ In k' (Object_keys o).
Proof.
  rewrite keys_obj_set.
  destruct (in_dec K_eq_dec k (Object_keys o)).
  - split; [tauto | intros [->|H]; assumption].
  - rewrite in_app_iff. simpl. intuition congruence.
Qed.

End JsObjectFacts.

(* ================================================================== *)
(** ** Facts on [filter(uniqueStrings)] *)

Lemma indexOf_app_first (pre : list string) (x : string) (rest : list string) :
  indexOf x (pre ++ x :: rest) = Some (length pre) <-> ~ In x pre.
Proof.
  induction pre as [|y pre IH]; simpl.
  - destruct (string_dec x x); [tauto | congruence].
  - destruct (string_dec y x) as [E|N].
    + split; [discriminate | tauto].
    + destruct (indexOf x (pre ++ x :: rest)) as [i|] eqn:Ei.
      * split.
        -- intros [= Hi]. subst i. intros [H|H]; [congruence|].
           now apply IH.
        -- intros H. f_equal. f_equal.
           assert (Hp : ~ In x pre) by tauto.
           apply IH in Hp. congruence.
      * split; [discriminate|]. intros H.
        assert (Hp : ~ In x pre) by tauto. apply IH in Hp. discriminate.
Qed.

Lemma uniqueStrings_first (pre : list string) (x : string) (rest : list string) :
  uniqueStrings x (length pre) (pre ++ x :: rest) = true <-> ~ In x pre.
Proof.
  unfold uniqueStrings. rewrite <- (indexOf_app_first pre x rest).
  destruct (indexOf x (pre ++ x :: rest)) as [i|].
  - rewrite Nat.eqb_eq. split; congruence.
  - split; discriminate.
Qed.

Lemma filter_from_uniqueStrings_In (pre l : list string) (x : string) :
  In x (filter_from uniqueStrings (pre ++ l) (length pre) l) <->
  In x l /\ ~ In x pre.
Proof.
  revert pre x. induction l as [|y l IH]; intros pre x; simpl.
  - tauto.
  - assert (Hstep : forall z,
      In z (filter_from uniqueStrings (pre ++ y :: l) (S (length pre)) l) <->
      In z l /\ ~ In z (pre ++ [y])).
    { intros z. specialize (IH (pre ++ [y]) z).
      rewrite <- app_assoc, length_app in IH. simpl in IH.
      rewrite Nat.add_1_r in IH. apply IH. }
    destruct (uniqueStrings y (length pre) (pre ++ y :: l)) eqn:Eu.
    + apply uniqueStrings_first in Eu. simpl. rewrite Hstep, in_app_iff. simpl.
      destruct (string_dec y x); intuition congruence.
    + assert (Hin : In y pre).
      { destruct (in_dec string_dec y pre); [assumption|].
        apply (uniqueStrings_first pre y l) in n. congruence. }
      rewrite Hstep, in_app_iff. simpl.
      destruct (string_dec y x); intuition congruence.
Qed.

Lemma filter_from_uniqueStrings_NoDup (pre l : list string) :
  NoDup (filter_from uniqueStrings (pre ++ l) (length pre) l).
Proof.
  revert pre. induction l as [|y l IH]; intros pre; simpl.
  - constructor.
  - pose proof (IH (pre ++ [y])) as IH'.
    pose proof (fun z => filter_from_uniqueStrings_In (pre ++ [y]) l z) as HIn.
    rewrite <- app_assoc, length_app in IH', HIn. simpl in IH', HIn.
    rewrite Nat.add_1_r in IH', HIn.
    destruct (uniqueStrings y (length pre) (pre ++ y :: l)); [|assumption].
    constructor; [|assumption].
    rewrite HIn, in_app_iff. simpl. tauto.
Qed.

Lemma uniqueStrings_In (l : list string) (x : string) :
  In x (js_filter uniqueStrings l) <-> In x l.
Proof.
  unfold js_filter. rewrite (filter_from_uniqueStrings_In [] l x). simpl. tauto.
Qed.

Lemma uniqueStrings_NoDup (l : list string) :
  NoDup (js_filter uniqueStrings l).
Proof. exact (filter_from_uniqueStrings_NoDup [] l). Qed.

(* ================================================================== *)
(** ** [defiAccounts] *)

Lemma bool_eq_iff (b c : bool) : (b = true <-> c = true) -> b = c.
Proof. destruct b, c; intuition congruence. Qed.

Lemma includes_In (A : Type) (dec : forall x y : A, {x = y} + {x <> y})
    (x : A) (l : list A) :
  includes dec x l = true <-> In x l.
Proof. unfold includes. destruct (in_dec dec x l); intuition congruence. Qed.

(** The first-occurrence filter, one element more. *)
Lemma filter_from_uniqueStrings_snoc (pre l : list string) (a : string) :
  filter_from uniqueStrings (pre ++ l ++ [a]) (length pre) (l ++ [a]) =
  filter_from uniqueStrings (pre ++ l) (length pre) l ++
  (if in_dec string_dec a (pre ++ l) then [] else [a]).
Proof.
  revert pre. induction l as [|y l IH]; intros pre; simpl.
  - rewrite app_nil_r.
    destruct (in_dec string_dec a pre) as [Hin|Hin].
    + destruct (uniqueStrings a (length pre) (pre ++ [a])) eqn:E; [|reflexivity].
      apply uniqueStrings_first in E. contradiction.
    + apply (uniqueStrings_first pre a []) in Hin. now rewrite Hin.
  - assert (Hy : uniqueStrings y (length pre) (pre ++ y :: l ++ [a]) =
                 uniqueStrings y (length pre) (pre ++ y :: l)).
    { apply bool_eq_iff. now rewrite !uniqueStrings_first. }
    rewrite Hy.
    specialize (IH (pre ++ [y])).
    rewrite <- !app_assoc, length_app in IH. simpl in IH.
    rewrite Nat.add_1_r in IH. rewrite IH.
    destruct (uniqueStrings y (length pre) (pre ++ y :: l)); reflexivity.
Qed.

Lemma uniqueStrings_snoc (l : list string) (a : string) :
  js_filter uniqueStrings (l ++ [a]) =
  js_filter uniqueStrings l ++ (if in_dec string_dec a l then [] else [a]).
Proof. exact (filter_from_uniqueStrings_snoc [] l a). Qed.

Lemma collectAccounts_visits (addresses : JsObject DefiProtocol.t (list string)) :
  collectAccounts addresses = fold_left visit (visits addresses) [].
Proof.
  unfold collectAccounts. generalize (@nil (string * DefiAccount)).
  induction addresses as [|[p l] rest IH]; intros acc; simpl.
  - reflexivity.
  - rewrite fold_left_app, IH. f_equal.
    clear IH. revert acc. induction l as [|a l IHl]; intros acc; simpl.
    + reflexivity.
    + apply IHl.
Qed.

Lemma map_snd_visits (addresses : JsObject DefiProtocol.t (list string)) :
  map snd (visits addresses) = sightings addresses.
Proof.
  unfold visits, sightings, Object_values.
  induction addresses as [|[p l] rest IH]; simpl.
  - reflexivity.
  - rewrite map_app, IH, map_map. simpl. now rewrite map_id.
Qed.

Section Tabulated.
(** Objects whose value at each key is a function of the key. *)
Variable V : Type.
Implicit Types (f : string -> V) (keys : list string).

Lemma obj_get_tabulate f keys k :
  obj_get string_dec k (tabulate f keys) =
  if in_dec string_dec k keys then Some (f k) else None.
Proof.
  induction keys as [|k' keys IH]; simpl.
  - reflexivity.
  - destruct (string_dec k k') as [E|N].
    + subst. destruct (string_dec k' k'); congruence.
    + rewrite IH. destruct (string_dec k' k); [congruence|].
      destruct (in_dec string_dec k keys); reflexivity.
Qed.

Lemma tabulate_ext f g keys :
  (forall k, In k keys -> f k = g k) -> tabulate f keys = tabulate g keys.
Proof. intros H. unfold tabulate. apply map_ext_in. intros k Hk. now rewrite H. Qed.

Lemma values_tabulate f keys : Object_values (tabulate f keys) = map f keys.
Proof. unfold Object_values, tabulate. rewrite map_map. reflexivity. Qed.

Lemma obj_set_tabulate f keys k v :
  NoDup keys ->
  obj_set string_dec k v (tabulate f keys) =
  tabulate (override f k v)
    (keys ++ (if in_dec string_dec k keys then [] else [k])).
Proof.
  intros Hnd. induction Hnd as [|k' keys Hk' Hnd IH]; simpl.
  - unfold override. destruct (string_dec k k); congruence.
  - destruct (string_dec k k') as [E|N].
    + subst. destruct (string_dec k' k') as [E|N]; [|congruence].
      rewrite app_nil_r. unfold override at 1.
      destruct (string_dec k' k'); [|congruence]. f_equal.
      apply tabulate_ext. intros k Hk. unfold override.
      destruct (string_dec k' k); congruence.
    + destruct (string_dec k' k) as [E|N2]; [congruence|].
      unfold override at 1. destruct (string_dec k k'); [congruence|].
      f_equal. rewrite IH.
      destruct (in_dec string_dec k keys); reflexivity.
Qed.
End Tabulated.

Lemma protocolsOf_snoc (a : string) (ps : list (DefiProtocol.t * string))
    (p : DefiProtocol.t) (a0 : string) :
  protocolsOf a (ps ++ [(p, a0)]) =
  protocolsOf a ps ++ (if string_dec a a0 then [p] else []).
Proof.
  unfold protocolsOf. rewrite filter_app, map_app. simpl.
  destruct (string_dec a a0); reflexivity.
Qed.

Lemma protocolsOf_unseen (a : string) (ps : list (DefiProtocol.t * string)) :
  ~ In a (map snd ps) -> protocolsOf a ps = [].
Proof.
  unfold protocolsOf. induction ps as [|[p a'] ps IH]; simpl; [reflexivity|].
  intros H. destruct (string_dec a a'); [exfalso; apply H; left; congruence|].
  apply IH. tauto.
Qed.

(** The accounts built from a sequence of visits: one per address, in the
    order of the first visits, with the protocols in the order of the
    visits. *)
Lemma fold_visit (ps : list (DefiProtocol.t * string)) :
  fold_left visit ps [] =
  tabulate (fun a => mkDefiAccount a Blockchain.ETH (protocolsOf a ps))
    (js_filter uniqueStrings (map snd ps)).
Proof.
  induction ps as [|[p a0] ps IH] using rev_ind.
  - reflexivity.
  - rewrite fold_left_app. simpl. rewrite IH. clear IH.
    rewrite map_app. simpl. rewrite uniqueStrings_snoc.
    set (keys := js_filter uniqueStrings (map snd ps)).
    assert (Hnd : NoDup keys) by apply uniqueStrings_NoDup.
    assert (Hin : forall a, In a keys <-> In a (map snd ps))
      by (intros a; apply uniqueStrings_In).
    unfold visit, addAccount. simpl. rewrite obj_get_tabulate.
    destruct (in_dec string_dec a0 keys) as [Hk|Hk];
      destruct (in_dec string_dec a0 (map snd ps)) as [Hs|Hs];
      try (apply Hin in Hk; contradiction);
      try (apply Hin in Hs; contradiction).
    + rewrite obj_set_tabulate by assumption.
      destruct (in_dec string_dec a0 keys); [|contradiction].
      apply tabulate_ext. intros a _. unfold override. simpl.
      rewrite protocolsOf_snoc.
      destruct (string_dec a0 a) as [E|N]; [subst|].
      * destruct (string_dec a a); congruence.
      * destruct (string_dec a a0); [congruence|]. now rewrite app_nil_r.
    + rewrite obj_set_tabulate by assumption.
      destruct (in_dec string_dec a0 keys); [contradiction|].
      apply tabulate_ext. intros a _. unfold override.
      rewrite protocolsOf_snoc.
      destruct (string_dec a0 a) as [E|N]; [subst|].
      * destruct (string_dec a a); [|congruence].
        now rewrite protocolsOf_unseen.
      * destruct (string_dec a a0); [congruence|]. now rewrite app_nil_r.
Qed.

Lemma protocolsOf_app (a : string) (ps qs : list (DefiProtocol.t * string)) :
  protocolsOf a (ps ++ qs) = protocolsOf a ps ++ protocolsOf a qs.
Proof. unfold protocolsOf. now rewrite filter_app, map_app. Qed.

Lemma protocolsOf_one (a : string) (p : DefiProtocol.t) (l : list string) :
  NoDup l ->
  protocolsOf a (map (pair p) l) =
  if includes string_dec a l then [p] else [].
Proof.
  intros Hnd. induction Hnd as [|x l Hx Hnd IH].
  - reflexivity.
  - unfold protocolsOf in *. simpl. unfold includes in *. simpl.
    destruct (string_dec a x) as [E|N].
    + subst. destruct (string_dec x x); [|congruence]. simpl. f_equal.
      destruct (in_dec string_dec x l); [contradiction|]. apply IH.
    + destruct (string_dec x a); [congruence|]. rewrite IH.
      destruct (in_dec string_dec a l); reflexivity.
Qed.

Lemma protocolsOf_visits (a : string)
    (addresses : JsObject DefiProtocol.t (list string)) :
  Forall (fun entry => NoDup (snd entry)) addresses ->
  protocolsOf a (visits addresses) = protocols (accountOf addresses a).
Proof.
  intros H. induction H as [|[p l] rest Hl H IH]; simpl.
  - reflexivity.
  - rewrite protocolsOf_app, IH, protocolsOf_one by assumption. simpl.
    destruct (includes string_dec a l); reflexivity.
Qed.

(** The accounts collected from the per-protocol address lists. *)
Lemma collectAccounts_spec (addresses : JsObject DefiProtocol.t (list string)) :
  Forall (fun entry => NoDup (snd entry)) addresses ->
  Object_values (collectAccounts addresses) =
  map (accountOf addresses) (js_filter uniqueStrings (sightings addresses)).
Proof.
  intros H. rewrite collectAccounts_visits, fold_visit, values_tabulate.
  rewrite map_snd_visits. apply map_ext. intros a.
  rewrite protocolsOf_visits by assumption. reflexivity.
Qed.

Section DefiAccountsFacts.
Variable Any : Type.
Implicit Types (d : AdapterData Any) (filter : list DefiProtocol.t).

Lemma In_getProtocolAddresses filter p (balances : AddressIndexed Any)
    (history : AddressIndexed Any + list string) a :
  In a (getProtocolAddresses filter p balances history) <->
  selected filter p /\
  In a (Object_keys balances ++
        match history with inr array => array | inl object => Object_keys object end).
Proof.
  unfold getProtocolAddresses, selected.
  destruct ((length filter =? 0) || includes DefiProtocol.eq_dec p filter) eqn:E.
  - simpl. rewrite uniqueStrings_In.
    apply orb_true_iff in E. rewrite Nat.eqb_eq, includes_In in E.
    rewrite length_zero_iff_nil in E. tauto.
  - apply orb_false_iff in E. destruct E as [E1 E2].
    apply Nat.eqb_neq in E1. rewrite length_zero_iff_nil in E1.
    assert (~ In p filter).
    { rewrite <- includes_In. rewrite E2. discriminate. }
    simpl. tauto.
Qed.

Lemma NoDup_getProtocolAddresses filter p (balances : AddressIndexed Any)
    (history : AddressIndexed Any + list string) :
  NoDup (getProtocolAddresses filter p balances history).
Proof.
  unfold getProtocolAddresses.
  destruct ((length filter =? 0) || includes DefiProtocol.eq_dec p filter).
  - simpl. apply uniqueStrings_NoDup.
  - constructor.
Qed.

Lemma addresses_eq filter d :
  addresses filter d =
  [ (DefiProtocol.MAKERDAO_DSR,
     getProtocolAddresses filter DefiProtocol.MAKERDAO_DSR
       (dsrBalances_balances d) (inl (dsrHistory d)));
    (DefiProtocol.AAVE,
     getProtocolAddresses filter DefiProtocol.AAVE
       (aaveBalances d) (inl (aaveHistory d)));
    (DefiProtocol.COMPOUND,
     getProtocolAddresses filter DefiProtocol.COMPOUND
       (compoundBalances d) (inr (map fst (compoundHistory_events d))));
    (DefiProtocol.YEARN_VAULTS,
     getProtocolAddresses filter DefiProtocol.YEARN_VAULTS
       (yearnV1Balances d) (inl (yearnV1History d)));
    (DefiProtocol.YEARN_VAULTS_V2,
     getProtocolAddresses filter DefiProtocol.YEARN_VAULTS_V2
       (yearnV2Balances d) (inl (yearnV2History d))) ].
Proof. reflexivity. Qed.

Lemma addresses_NoDup filter d :
  Forall (fun entry => NoDup (snd entry)) (addresses filter d).
Proof.
  rewrite addresses_eq.
  repeat (constructor; [apply NoDup_getProtocolAddresses|]). constructor.
Qed.

Lemma addresses_In filter d p l :
  In (p, l) (addresses filter d) ->
  In p eligible /\
  forall a, In a l <-> selected filter p /\ references d p a.
Proof.
  rewrite addresses_eq. simpl.
  intros H.
  repeat (destruct H as [H|H]; [inversion H; subst; clear H|]);
    try contradiction;
    (split; [simpl; tauto|]); intros a;
    rewrite In_getProtocolAddresses, in_app_iff; reflexivity.
Qed.

Lemma addresses_complete filter d p :
  In p eligible -> exists l, In (p, l) (addresses filter d).
Proof.
  rewrite addresses_eq. simpl.
  intros H. repeat (destruct H as [H|H]; [subst p; eexists; simpl; eauto 10|]).
  contradiction.
Qed.

Lemma defiAccounts_spec filter d :
  defiAccounts filter d =
  map (accountOf (addresses filter d))
    (js_filter uniqueStrings (sightings (addresses filter d))).
Proof. apply collectAccounts_spec, addresses_NoDup. Qed.

Lemma In_protocols_accountOf (o : JsObject DefiProtocol.t (list string)) a p :
  In p (protocols (accountOf o a)) <-> exists l, In (p, l) o /\ In a l.
Proof.
  unfold accountOf. cbn [protocols]. rewrite in_map_iff. split.
  - intros [[p' l] [E H]]. simpl in E. subst p'.
    apply filter_In in H. destruct H as [H1 H2]. simpl in H2.
    apply includes_In in H2. eauto.
  - intros [l [H1 H2]]. exists (p, l). split; [reflexivity|].
    apply filter_In. split; [assumption|]. simpl. now apply includes_In.
Qed.

Lemma In_sightings (o : JsObject DefiProtocol.t (list string)) a :
  In a (sightings o) <-> exists p l, In (p, l) o /\ In a l.
Proof.
  unfold sightings, Object_values. rewrite in_concat. split.
  - intros [l [H1 H2]]. apply in_map_iff in H1.
    destruct H1 as [[p l'] [E H1]]. simpl in E. subst. eauto.
  - intros [p [l [H1 H2]]]. exists l. split; [|assumption].
    apply in_map_iff. exists (p, l). tauto.
Qed.

Lemma NoDup_map_fst_filter (A B : Type) (g : A * B -> bool) (o : list (A * B)) :
  NoDup (map fst o) -> NoDup (map fst (filter g o)).
Proof.
  induction o as [|x o IH]; simpl; [trivial|].
  intros H. inversion H as [|? ? Hx Ho]; subst.
  destruct (g x); simpl; [|now apply IH].
  constructor; [|now apply IH].
  intros Hin. apply Hx. apply in_map_iff in Hin.
  destruct Hin as [y [E Hy]]. apply filter_In in Hy.
  apply in_map_iff. exists y. tauto.
Qed.

Lemma addresses_keys filter d :
  Object_keys (addresses filter d) =
  [ DefiProtocol.MAKERDAO_DSR; DefiProtocol.AAVE; DefiProtocol.COMPOUND;
    DefiProtocol.YEARN_VAULTS; DefiProtocol.YEARN_VAULTS_V2 ].
Proof. reflexivity. Qed.

End DefiAccountsFacts.

(** C6: [defiAccounts] returns each address once; the protocols of an
    account are, without repetition, exactly the eligible protocols that
    pass the filter (every one when the filter is empty) and have the
    address among their balance keys or in their history; every address so
    referenced has an account. *)
Theorem defiAccounts_exact (Any : Type) (filter : list DefiProtocol.t)
    (d : AdapterData Any) :
  let accounts := defiAccounts filter d in
  NoDup (map address accounts) /\
  (forall account, In account accounts ->
     NoDup (protocols account) /\
     forall p, In p (protocols account) <->
               In p eligible /\ selected filter p /\
               references d p (address account)) /\
  (forall p a, In p eligible -> selected filter p -> references d p a ->
     exists account, In account accounts /\ address account = a).
Proof.
  cbv zeta. rewrite defiAccounts_spec.
  set (o := addresses filter d).
  split; [|split].
  - rewrite map_map. unfold accountOf. cbn [address]. rewrite map_id.
    apply uniqueStrings_NoDup.
  - intros account Hacc. apply in_map_iff in Hacc.
    destruct Hacc as [a [<- Ha]]. split.
    + unfold accountOf. cbn [protocols]. apply NoDup_map_fst_filter.
      change (NoDup (Object_keys o)). subst o. rewrite addresses_keys.
      repeat (constructor; [simpl; intuition discriminate|]). constructor.
    + intros p. rewrite In_protocols_accountOf.
      unfold accountOf at 1. cbn [address]. split.
      * intros [l [H1 H2]]. apply addresses_In in H1.
        destruct H1 as [He Hl]. apply Hl in H2. tauto.
      * intros [He [Hs Hr]]. destruct (addresses_complete filter d He) as [l Hl].
        exists l. split; [assumption|].
        destruct (addresses_In Hl) as [_ Hl']. apply Hl'. tauto.
  - intros p a He Hs Hr. exists (accountOf o a). split; [|reflexivity].
    apply in_map. apply uniqueStrings_In. apply In_sightings.
    destruct (addresses_complete filter d He) as [l Hl].
    exists p, l. split; [assumption|].
    destruct (addresses_In Hl) as [_ Hl']. apply Hl'. tauto.
Qed.

Section JsObjectMore.
Variables K V : Type.
Variable K_eq_dec : forall x y : K, {x = y} + {x <> y}.
Implicit Types (o : JsObject K V) (k : K) (v : V).

Lemma obj_set_same o k v :
  obj_get K_eq_dec k o = Some v -> obj_set K_eq_dec k v o = o.
Proof.
  induction o as [|[k' v'] o IH]; simpl; [discriminate|].
  destruct (K_eq_dec k k') as [E|N].
  - now intros [= ->].
  - intros H. now rewrite IH.
Qed.

Lemma obj_set_set o k v v' :
  obj_set K_eq_dec k v' (obj_set K_eq_dec k v o) = obj_set K_eq_dec k v' o.
Proof.
  induction o as [|[k1 v1] o IH]; simpl.
  - destruct (K_eq_dec k k); congruence.
  - destruct (K_eq_dec k k1) as [E|N]; simpl.
    + destruct (K_eq_dec k k1); congruence.
    + destruct (K_eq_dec k k1); [congruence|]. now rewrite IH.
Qed.

Lemma In_values_obj_set o k v x :
  In x (Object_values (obj_set K_eq_dec k v o)) ->
  x = v \/ In x (Object_values o).
Proof.
  induction o as [|[k1 v1] o IH]; simpl.
  - intuition.
  - destruct (K_eq_dec k k1); simpl; intuition.
Qed.

Lemma In_values_get o x :
  In x (Object_values o) -> NoDup (Object_keys o) ->
  exists k, obj_get K_eq_dec k o = Some x.
Proof.
  intros Hin Hnd. apply in_map_iff in Hin. destruct Hin as [[k v] [E Hin]].
  simpl in E. subst v. exists k. now apply obj_get_NoDup.
Qed.

Lemma get_In_values o k v :
  obj_get K_eq_dec k o = Some v -> In v (Object_values o).
Proof.
  intros H. apply obj_get_In in H. apply in_map_iff. now exists (k, v).
Qed.
End JsObjectMore.

(* ================================================================== *)
(** ** The loop of [overview] *)

Section OverviewFacts.
Context {imports : Imports}.
Variable st : Store.
Implicit Types (summary : Summaries) (entry : DefiProtocolData.t)
  (p k : string) (s : DefiProtocolSummary).

Lemma bypassed_false p :
  bypassed p = false ->
  String.eqb p AAVE = false /\ String.eqb p COMPOUND = false /\
  String.eqb p YEARN_FINANCE_VAULTS = false /\ String.eqb p LIQUITY = false.
Proof.
  unfold bypassed. intros H.
  repeat (apply orb_false_iff in H; destruct H as [H ?]). tauto.
Qed.

(** An entry of a bypassed protocol stores the dedicated summary, when
    there is one to display. *)
Lemma accumulate_bypassed summary entry :
  bypassed (protocolName entry) = true ->
  accumulate st summary entry =
  Ok (storeDisplayed summary (protocolName entry)
        (dedicated st (protocolName entry))).
Proof.
  unfold bypassed, accumulate, dedicated, protocolName. intros H.
  destruct (String.eqb _ AAVE); [reflexivity|].
  destruct (String.eqb _ COMPOUND); [reflexivity|].
  destruct (String.eqb _ YEARN_FINANCE_VAULTS); [reflexivity|].
  destruct (String.eqb _ LIQUITY); [reflexivity|].
  discriminate.
Qed.

Lemma seedOrCollapse_step summary entry :
  seedOrCollapse summary entry =
  (seeded <- seedStep (obj_get string_dec (protocolName entry) summary) entry ;;
   Ok (obj_set string_dec (protocolName entry) seeded summary)).
Proof.
  unfold seedOrCollapse, seedStep. fold (protocolName entry).
  destruct (obj_get string_dec (protocolName entry) summary) as [cur|] eqn:Hcur;
    simpl; [|reflexivity].
  destruct (tokenInfo cur) as [info|]; simpl; [|reflexivity].
  destruct (String.eqb (TokenInfo.tokenName info) _); simpl; [|reflexivity].
  now rewrite obj_set_same.
Qed.

Lemma addAsset_step summary entry current :
  obj_get string_dec (protocolName entry) summary = Some current ->
  addAsset summary entry =
  (next <- assetStep current entry ;;
   Ok (obj_set string_dec (protocolName entry) next summary)).
Proof.
  intros Hcur. unfold addAsset, assetStep. fold (protocolName entry).
  destruct (DefiProtocolData.balanceType entry); simpl.
  - rewrite Hcur. destruct (findIndex _ _) as [i|]; simpl; [|reflexivity].
    destruct (nth_error _ i); reflexivity.
  - now rewrite obj_set_same.
Qed.

(** Any other entry updates the summary of its protocol alone. *)
Lemma accumulate_generic summary entry :
  bypassed (protocolName entry) = false ->
  accumulate st summary entry =
  (next <- genericStep (obj_get string_dec (protocolName entry) summary) entry ;;
   Ok (obj_set string_dec (protocolName entry) next summary)).
Proof.
  intros H. apply bypassed_false in H. destruct H as (H1 & H2 & H3 & H4).
  unfold accumulate. fold (protocolName entry). rewrite H1, H2, H3, H4.
  rewrite seedOrCollapse_step. unfold genericStep.
  destruct (seedStep _ entry) as [seeded|]; simpl; [|reflexivity].
  rewrite (@addAsset_step _ entry seeded) by apply obj_get_set_same.
  destruct (assetStep seeded entry) as [next|]; simpl; [|reflexivity].
  now rewrite obj_set_set.
Qed.

Lemma findIndex_Some (A : Type) (f : A -> bool) (l : list A) (i : nat) :
  findIndex f l = Some i ->
  exists x, nth_error l i = Some x /\ f x = true /\
            forall y, In y (firstn i l) -> f y = false.
Proof.
  revert i. induction l as [|y l IH]; simpl; intros i; [discriminate|].
  destruct (f y) eqn:Ey.
  - intros [= <-]. exists y. simpl. tauto.
  - destruct (findIndex f l) as [j|]; [|discriminate].
    intros [= <-]. destruct (IH j eq_refl) as [x (H1 & H2 & H3)].
    exists x. simpl. repeat split; try assumption.
    intros z [<-|Hz]; auto.
Qed.

Lemma findIndex_None (A : Type) (f : A -> bool) (l : list A) :
  findIndex f l = None -> forall x, In x l -> f x = false.
Proof.
  induction l as [|y l IH]; simpl; [tauto|].
  destruct (f y) eqn:Ey; [discriminate|].
  destruct (findIndex f l); [discriminate|].
  intros _ x [<-|Hx]; auto.
Qed.

Lemma seedStep_ok current entry :
  (forall c, current = Some c -> tokenInfo c <> None) ->
  exists seeded,
    seedStep current entry = Ok seeded /\ tokenInfo seeded <> None.
Proof.
  intros H. unfold seedStep. destruct current as [c|].
  - specialize (H c eq_refl). destruct (tokenInfo c) as [info|] eqn:E;
      [|congruence].
    destruct (String.eqb _ _); eexists; split; try reflexivity.
    + congruence.
    + simpl. discriminate.
  - eexists. split; [reflexivity|]. simpl. discriminate.
Qed.

Lemma seedStep_frame c entry seeded :
  seedStep (Some c) entry = Ok seeded ->
  sameFrame c seeded /\ balanceUsd seeded = balanceUsd c /\
  assets seeded = assets c.
Proof.
  unfold seedStep, sameFrame. destruct (tokenInfo c); [|discriminate].
  destruct (String.eqb _ _); intros [= <-]; simpl; tauto.
Qed.

Lemma assetStep_ok seeded entry :
  exists next,
    assetStep seeded entry = Ok next /\ sameFrame seeded next /\
    tokenInfo next = tokenInfo seeded.
Proof.
  unfold assetStep, sameFrame.
  destruct (DefiProtocolData.balanceType entry); [|eauto 6].
  cbv zeta. destruct (findIndex _ _) as [i|] eqn:Ei.
  - apply findIndex_Some in Ei. destruct Ei as [x [Hx _]].
    rewrite Hx. eexists. split; [reflexivity|]. simpl. tauto.
  - eexists. split; [reflexivity|]. simpl. tauto.
Qed.

Lemma genericStep_stored current entry :
  bypassed (protocolName entry) = false ->
  (forall c, current = Some c -> stored st (protocolName entry) c) ->
  exists next,
    genericStep current entry = Ok next /\
    stored st (protocolName entry) next.
Proof.
  intros Hb Hc. unfold genericStep.
  destruct (@seedStep_ok current entry) as [seeded [Hs Hti]].
  { intros c ->. specialize (Hc c eq_refl). unfold stored in Hc.
    rewrite Hb in Hc. tauto. }
  rewrite Hs. simpl.
  destruct (assetStep_ok seeded entry) as [next [Hn [[F1 [F2 F3]] Hti']]].
  exists next. split; [assumption|].
  unfold stored. rewrite Hb, F1, F2, F3, Hti'.
  destruct current as [c|].
  - destruct (@seedStep_frame c entry seeded Hs) as [[G1 [G2 G3]] _].
    specialize (Hc c eq_refl). unfold stored in Hc. rewrite Hb in Hc.
    rewrite G1, G2, G3. tauto.
  - unfold seedStep in Hs. injection Hs as <-. simpl. tauto.
Qed.

Lemma wellFormed_nil : wellFormed st [].
Proof. split; [constructor|]. intros k s. discriminate. Qed.

Lemma wellFormed_obj_set summary k s :
  wellFormed st summary -> stored st k s ->
  wellFormed st (obj_set string_dec k s summary).
Proof.
  intros [Hnd Hst] Hs. split.
  - now apply NoDup_keys_obj_set.
  - intros k' s' H. destruct (string_dec k' k) as [->|N].
    + rewrite obj_get_set_same in H. now injection H as <-.
    + rewrite obj_get_set_other in H by assumption. now apply Hst.
Qed.

Lemma dedicated_name p s :
  dedicated st p = Some s -> name (protocol s) = p.
Proof.
  unfold dedicated, protocolSummary.
  repeat (destruct (String.eqb p _);
          [destruct (negb _); [discriminate|]; intros [= <-]; reflexivity|]).
  discriminate.
Qed.

Lemma wellFormed_storeDisplayed summary p :
  bypassed p = true -> wellFormed st summary ->
  wellFormed st (storeDisplayed summary p (dedicated st p)).
Proof.
  intros Hb Hwf. unfold storeDisplayed.
  destruct (dedicated st p) as [s|] eqn:Ed; [|assumption].
  destruct (shouldDisplay s) eqn:Es; [|assumption].
  apply wellFormed_obj_set; [assumption|].
  unfold stored. rewrite Hb. split; [now apply dedicated_name|tauto].
Qed.

Lemma obj_get_storeDisplayed summary k p o :
  k <> p ->
  obj_get string_dec k (storeDisplayed summary p o) =
  obj_get string_dec k summary.
Proof.
  intros N. unfold storeDisplayed. destruct o as [s|]; [|reflexivity].
  destruct (shouldDisplay s); [|reflexivity].
  now apply obj_get_set_other.
Qed.

Lemma entriesOf_cons p entry es :
  entriesOf p (entry :: es) =
  if String.eqb (protocolName entry) p then entry :: entriesOf p es
  else entriesOf p es.
Proof. reflexivity. Qed.

(** The loop keeps the map well formed, never throws, and the summary of
    a protocol without dedicated summary is the fold of its entries. *)
Lemma accumulateAll_spec es : forall summary,
  wellFormed st summary ->
  exists summary',
    accumulateAll st summary es = Ok summary' /\
    wellFormed st summary' /\
    forall p, bypassed p = false ->
      foldGeneric (obj_get string_dec p summary) (entriesOf p es) =
      Ok (obj_get string_dec p summary').
Proof.
  induction es as [|entry es IH]; intros summary Hwf.
  - exists summary. simpl. auto.
  - simpl accumulateAll.
    destruct (bypassed (protocolName entry)) eqn:Hb.
    + rewrite accumulate_bypassed by assumption. cbn [bind].
      destruct (IH _ (@wellFormed_storeDisplayed summary _ Hb Hwf))
        as [summary' (H1 & H2 & H3)].
      exists summary'. split; [assumption|split; [assumption|]].
      intros p Hp. rewrite entriesOf_cons.
      destruct (String.eqb_spec (protocolName entry) p) as [E|N];
        [congruence|].
      rewrite <- (H3 p Hp). f_equal.
      symmetry. apply obj_get_storeDisplayed. congruence.
    + rewrite accumulate_generic by assumption.
      destruct (@genericStep_stored
                  (obj_get string_dec (protocolName entry) summary) entry Hb)
        as [next [Hn Hs]].
      { intros c Hc. now apply (proj2 Hwf). }
      rewrite Hn. cbn [bind].
      destruct (IH _ (@wellFormed_obj_set summary _ next Hwf Hs))
        as [summary' (H1 & H2 & H3)].
      exists summary'. split; [assumption|split; [assumption|]].
      intros p Hp. rewrite entriesOf_cons.
      destruct (String.eqb_spec (protocolName entry) p) as [E|N].
      * subst p. cbn [foldGeneric]. rewrite Hn. cbn [bind].
        rewrite <- (H3 _ Hp). now rewrite obj_get_set_same.
      * rewrite <- (H3 p Hp). f_equal. symmetry.
        apply obj_get_set_other. congruence.
Qed.

Lemma accumulateAll_app es es' summary :
  accumulateAll st summary (es ++ es') =
  (summary' <- accumulateAll st summary es ;;
   accumulateAll st summary' es').
Proof.
  revert summary. induction es as [|entry es IH]; intros summary; simpl.
  - reflexivity.
  - destruct (accumulate st summary entry); simpl; [apply IH|reflexivity].
Qed.

(** The two nested loops visit the entries of the payload in order. *)
Lemma accumulateAddresses_entries (defiProtocols : AllDefiProtocols) keys :
  forall summary,
  incl keys (Object_keys defiProtocols) ->
  accumulateAddresses st defiProtocols summary keys =
  accumulateAll st summary
    (flat_map
       (fun address =>
          match obj_get string_dec address defiProtocols with
          | Some protocols => protocols
          | None => []
          end) keys).
Proof.
  induction keys as [|address keys IH]; intros summary Hincl; simpl.
  - reflexivity.
  - destruct (obj_get string_dec address defiProtocols) as [l|] eqn:E.
    + rewrite accumulateAll_app.
      destruct (accumulateAll st summary l); simpl; [|reflexivity].
      apply IH. intros x Hx. apply Hincl. now right.
    + exfalso. apply obj_get_None in E. apply E, Hincl. now left.
Qed.

Lemma loop_spec :
  exists summary,
    accumulateAddresses st (allProtocols st) []
      (Object_keys (allProtocols st)) = Ok summary /\
    accumulateAll st [] (entries (allProtocols st)) = Ok summary /\
    wellFormed st summary /\
    forall p, bypassed p = false ->
      foldGeneric None (entriesOf p (entries (allProtocols st))) =
      Ok (obj_get string_dec p summary).
Proof.
  destruct (@accumulateAll_spec (entries (allProtocols st)) [] wellFormed_nil)
    as [summary (H1 & H2 & H3)].
  exists summary. split; [|split; [assumption|split; assumption]].
  rewrite accumulateAddresses_entries by apply incl_refl. exact H1.
Qed.
End OverviewFacts.

(* ================================================================== *)
(** ** Sorting and the final filter *)

Lemma insertByName_perm (s : DefiProtocolSummary) (l : list DefiProtocolSummary) :
  Permutation (insertByName s l) (s :: l).
Proof.
  induction l as [|x l IH]; simpl.
  - reflexivity.
  - destruct (String.leb _ _); [reflexivity|].
    rewrite IH. apply perm_swap.
Qed.

Lemma sortByName_perm (l : list DefiProtocolSummary) :
  Permutation (sortByName l) l.
Proof.
  induction l as [|x l IH]; simpl.
  - reflexivity.
  - rewrite insertByName_perm. now constructor.
Qed.

Lemma In_sortByName (l : list DefiProtocolSummary) (s : DefiProtocolSummary) :
  In s (sortByName l) <-> In s l.
Proof.
  split; apply Permutation_in;
    [apply sortByName_perm | symmetry; apply sortByName_perm].
Qed.

Lemma listed_iff (s : DefiProtocolSummary) :
  listed s = true <->
  balanceUsd s <> None \/ deposits s = true \/ liabilities s = true.
Proof.
  unfold listed. destruct (balanceUsd s).
  - split; [left; discriminate | reflexivity].
  - rewrite orb_true_iff. intuition congruence.
Qed.

Lemma length_filter_le (A : Type) (f : A -> bool) (l : list A) :
  length (filter f l) <= length l.
Proof.
  induction l as [|x l IH]; simpl; [lia|]. destruct (f x); simpl; lia.
Qed.

Lemma filter_comm (A : Type) (f g : A -> bool) (l : list A) :
  filter f (filter g l) = filter g (filter f l).
Proof.
  induction l as [|x l IH]; simpl; [reflexivity|].
  destruct (f x) eqn:Ef, (g x) eqn:Eg; simpl; rewrite ?Ef, ?Eg, IH; reflexivity.
Qed.

Lemma Permutation_filter (A : Type) (f : A -> bool) (l l' : list A) :
  Permutation l l' -> Permutation (filter f l) (filter f l').
Proof.
  induction 1 as [|x l l' H IH|x y l|l l' l'' H1 IH1 H2 IH2]; simpl.
  - constructor.
  - destruct (f x); [now constructor|assumption].
  - destruct (f x), (f y); try reflexivity. apply perm_swap.
  - now transitivity (filter f l').
Qed.

(** In an object whose summaries carry their key as name, a name occurs
    at most once among the values. *)
Lemma named_once (n : string) (o : Summaries) :
  NoDup (Object_keys o) ->
  (forall k s, In (k, s) o -> named n s = true -> k = n) ->
  length (filter (named n) (Object_values o)) <= 1.
Proof.
  induction o as [|[k s] o IH]; simpl; intros Hnd Hkey; [lia|].
  inversion Hnd as [|? ? Hk Hnd']; subst.
  assert (IH' : length (filter (named n) (Object_values o)) <= 1).
  { apply IH; [assumption|]. intros k' s' Hin. apply Hkey. now right. }
  destruct (named n s) eqn:En; [|assumption].
  assert (k = n) by (apply (Hkey k s); [now left|assumption]). subst k.
  assert (Hnone : filter (named n) (Object_values o) = []).
  { destruct (filter (named n) (Object_values o)) as [|s' rest] eqn:Ef;
      [reflexivity|].
    exfalso. assert (Hin : In s' (filter (named n) (Object_values o)))
      by (rewrite Ef; now left).
    apply filter_In in Hin. destruct Hin as [Hin Hn].
    apply in_map_iff in Hin. destruct Hin as [[k' s''] [E Hin]].
    simpl in E. subst s''.
    assert (k' = n) by (apply (Hkey k' s'); [now right|assumption]). subst k'.
    apply Hk. apply in_map_iff. now exists (n, s'). }
  simpl. rewrite Hnone. simpl. lia.
Qed.

Section AssemblyFacts.
Context {imports : Imports}.
Variable st : Store.
Implicit Types (summary : Summaries) (p k : string) (s : DefiProtocolSummary).

Lemma addedWhenLoaded_DSR : addedWhenLoaded MAKERDAO_DSR = true.
Proof. unfold addedWhenLoaded. now rewrite String.eqb_refl. Qed.

Lemma addedWhenLoaded_VAULTS : addedWhenLoaded MAKERDAO_VAULTS = true.
Proof.
  unfold addedWhenLoaded. rewrite (String.eqb_refl MAKERDAO_VAULTS).
  now rewrite orb_true_r.
Qed.

Lemma addedWhenLoaded_V2 : addedWhenLoaded YEARN_FINANCE_VAULTS_V2 = true.
Proof.
  unfold addedWhenLoaded. rewrite (String.eqb_refl YEARN_FINANCE_VAULTS_V2).
  now rewrite orb_true_r.
Qed.

Lemma addLoaded_spec loop :
  wellFormed st loop ->
  NoDup (Object_keys (addLoaded st loop)) /\
  forall k s, obj_get string_dec k (addLoaded st loop) = Some s ->
              assembled st loop k s.
Proof.
  intros [Hnd Hst]. unfold addLoaded.
  destruct (statusReady _).
  2:{ split; [assumption|]. intros k s H. left. auto. }
  set (m1 :=
         if shouldDisplay (makerDAODSRSummary st)
         then obj_set string_dec (protocolValue DefiProtocol.MAKERDAO_DSR)
                (makerDAODSRSummary st) loop
         else loop).
  assert (H1 : NoDup (Object_keys m1) /\
               forall k s, obj_get string_dec k m1 = Some s -> assembled st loop k s).
  { subst m1. destruct (shouldDisplay _).
    - split; [now apply NoDup_keys_obj_set|]. intros k s.
      destruct (string_dec k (protocolValue DefiProtocol.MAKERDAO_DSR)) as [->|N].
      + rewrite obj_get_set_same. intros [= <-]. right.
        split; [apply addedWhenLoaded_DSR | reflexivity].
      + rewrite obj_get_set_other by assumption. intros H. left. auto.
    - split; [assumption|]. intros k s H. left. auto. }
  clearbody m1. destruct H1 as [Hnd1 Hst1].
  set (m2 :=
         if shouldDisplay (makerDAOVaultSummary st)
         then obj_set string_dec (protocolValue DefiProtocol.MAKERDAO_VAULTS)
                (makerDAOVaultSummary st) m1
         else m1).
  assert (H2 : NoDup (Object_keys m2) /\
               forall k s, obj_get string_dec k m2 = Some s -> assembled st loop k s).
  { subst m2. destruct (shouldDisplay _).
    - split; [now apply NoDup_keys_obj_set|]. intros k s.
      destruct (string_dec k (protocolValue DefiProtocol.MAKERDAO_VAULTS)) as [->|N].
      + rewrite obj_get_set_same. intros [= <-]. right.
        split; [apply addedWhenLoaded_VAULTS | reflexivity].
      + rewrite obj_get_set_other by assumption. auto.
    - split; assumption. }
  clearbody m2. destruct H2 as [Hnd2 Hst2].
  unfold storeDisplayed.
  destruct (protocolSummary _ _ _ _ _ _) as [v2|] eqn:Ev2; [|split; assumption].
  destruct (shouldDisplay v2); [|split; assumption].
  split; [now apply NoDup_keys_obj_set|]. intros k s.
  destruct (string_dec k (protocolValue DefiProtocol.YEARN_VAULTS_V2)) as [->|N].
  - rewrite obj_get_set_same. intros [= <-]. right.
    unfold protocolSummary in Ev2. destruct (negb _); [discriminate|].
    injection Ev2 as <-. split; [apply addedWhenLoaded_V2 | reflexivity].
  - rewrite obj_get_set_other by assumption. auto.
Qed.

(** The computation of [overview] never throws; its result is the final
    map, sorted and filtered. *)
Lemma overview_spec :
  exists loop,
    accumulateAll st [] (entries (allProtocols st)) = Ok loop /\
    wellFormed st loop /\
    (forall p, bypassed p = false ->
       foldGeneric None (entriesOf p (entries (allProtocols st))) =
       Ok (obj_get string_dec p loop)) /\
    summaryMap st = Ok (addLoaded st loop) /\
    overview st =
    Ok (filter listed (sortByName (Object_values (addLoaded st loop)))).
Proof.
  destruct (loop_spec st) as [loop (H1 & H2 & H3 & H4)].
  exists loop. repeat (split; [assumption|]).
  unfold overview, summaryMap. rewrite H1. simpl. auto.
Qed.

Lemma addLoaded_other loop k :
  k <> protocolValue DefiProtocol.MAKERDAO_DSR ->
  k <> protocolValue DefiProtocol.MAKERDAO_VAULTS ->
  k <> protocolValue DefiProtocol.YEARN_VAULTS_V2 ->
  obj_get string_dec k (addLoaded st loop) = obj_get string_dec k loop.
Proof.
  intros N1 N2 N3. unfold addLoaded.
  destruct (statusReady _); [|reflexivity].
  rewrite obj_get_storeDisplayed by assumption.
  destruct (shouldDisplay (makerDAOVaultSummary st));
    [rewrite obj_get_set_other by assumption|];
    (destruct (shouldDisplay (makerDAODSRSummary st));
     [now rewrite obj_get_set_other by assumption|reflexivity]).
Qed.

Lemma addLoaded_DSR loop :
  protocolValue DefiProtocol.MAKERDAO_DSR <>
    protocolValue DefiProtocol.MAKERDAO_VAULTS ->
  protocolValue DefiProtocol.MAKERDAO_DSR <>
    protocolValue DefiProtocol.YEARN_VAULTS_V2 ->
  statusReady (getStatus st defaultSection) = true ->
  shouldDisplay (makerDAODSRSummary st) = true ->
  obj_get string_dec (protocolValue DefiProtocol.MAKERDAO_DSR)
    (addLoaded st loop) = Some (makerDAODSRSummary st).
Proof.
  intros N1 N2 Hr Hd. unfold addLoaded. rewrite Hr, Hd.
  rewrite obj_get_storeDisplayed by assumption.
  destruct (shouldDisplay (makerDAOVaultSummary st)).
  - rewrite obj_get_set_other by assumption. apply obj_get_set_same.
  - apply obj_get_set_same.
Qed.

Lemma addLoaded_VAULTS loop :
  protocolValue DefiProtocol.MAKERDAO_VAULTS <>
    protocolValue DefiProtocol.YEARN_VAULTS_V2 ->
  statusReady (getStatus st defaultSection) = true ->
  shouldDisplay (makerDAOVaultSummary st) = true ->
  obj_get string_dec (protocolValue DefiProtocol.MAKERDAO_VAULTS)
    (addLoaded st loop) = Some (makerDAOVaultSummary st).
Proof.
  intros N Hr Hd. unfold addLoaded. rewrite Hr, Hd.
  rewrite obj_get_storeDisplayed by assumption. apply obj_get_set_same.
Qed.

Lemma addLoaded_V2 loop v2 :
  statusReady (getStatus st defaultSection) = true ->
  protocolSummary st DefiProtocol.YEARN_VAULTS_V2
    SectionId.DEFI_YEARN_VAULTS_V2_BALANCES YEARN_FINANCE_VAULTS_V2
    true false = Some v2 ->
  shouldDisplay v2 = true ->
  obj_get string_dec (protocolValue DefiProtocol.YEARN_VAULTS_V2)
    (addLoaded st loop) = Some v2.
Proof.
  intros Hr Hv Hd. unfold addLoaded. rewrite Hr, Hv.
  unfold storeDisplayed. rewrite Hd. apply obj_get_set_same.
Qed.

End AssemblyFacts.

(* ================================================================== *)
(** ** The claims on [overview] *)

(** C1, as the code has it: the final filter of [overview] keeps exactly
    the summaries of the map whose [balanceUsd] is set (zero included), or
    whose [deposits] or [liabilities] flag is set; a summary with
    [balanceUsd] unset and both flags false is dropped. *)
Theorem overview_lists_set_balances (imports : Imports) (st : Store) :
  exists summary out,
    summaryMap st = Ok summary /\ overview st = Ok out /\
    forall s, In s out <->
      In s (Object_values summary) /\
      (balanceUsd s <> None \/ deposits s = true \/ liabilities s = true).
Proof.
  destruct (overview_spec st) as [loop (_ & _ & _ & Hm & Ho)].
  exists (addLoaded st loop), (filter listed (sortByName (Object_values (addLoaded st loop)))).
  split; [assumption|]. split; [assumption|].
  intros s. now rewrite filter_In, In_sortByName, listed_iff.
Qed.

(** C1 as stated fails: the summary of a protocol whose only asset is worth
    nothing is listed, with a zero [balanceUsd] and both flags false. *)
Lemma overview_lists_zero_balance :
  exists s,
    @overview rotki zeroBalance = Ok [s] /\
    balanceUsd s = Some Zero /\ BigNumber.gt Zero Zero = false /\
    deposits s = false /\ liabilities s = false.
Proof. eexists. repeat split. Qed.



(** C9, as the code has it: entries named AAVE, COMPOUND,
    YEARN_FINANCE_VAULTS or LIQUITY leave the loop body before the generic
    accumulation, so the loop stores nothing but the dedicated summary under
    those names; the summaries of MAKERDAO_DSR, MAKERDAO_VAULTS and
    YEARN_VAULTS_V2 are written after the loop, under the value of their
    [DefiProtocol] member, and replace what the loop stored under that key;
    every other key is as the loop left it; no key occurs twice, and no
    display name other than those of the three later summaries is listed
    twice. *)
Theorem overview_assembly (imports : Imports) (st : Store) :
  NoDup [ protocolValue DefiProtocol.MAKERDAO_DSR;
          protocolValue DefiProtocol.MAKERDAO_VAULTS;
          protocolValue DefiProtocol.YEARN_VAULTS_V2 ] ->
  exists loop final out,
    accumulateAll st [] (entries (allProtocols st)) = Ok loop /\
    summaryMap st = Ok final /\ overview st = Ok out /\
    (forall k s, bypassed k = true ->
       obj_get string_dec k loop = Some s ->
       dedicated st k = Some s /\ shouldDisplay s = true) /\
    (statusReady (getStatus st defaultSection) = true ->
       (shouldDisplay (makerDAODSRSummary st) = true ->
        obj_get string_dec (protocolValue DefiProtocol.MAKERDAO_DSR) final =
        Some (makerDAODSRSummary st)) /\
       (shouldDisplay (makerDAOVaultSummary st) = true ->
        obj_get string_dec (protocolValue DefiProtocol.MAKERDAO_VAULTS) final =
        Some (makerDAOVaultSummary st)) /\
       (forall v2,
          protocolSummary st DefiProtocol.YEARN_VAULTS_V2
            SectionId.DEFI_YEARN_VAULTS_V2_BALANCES YEARN_FINANCE_VAULTS_V2
            true false = Some v2 ->
          shouldDisplay v2 = true ->
          obj_get string_dec (protocolValue DefiProtocol.YEARN_VAULTS_V2) final =
          Some v2)) /\
    (forall k,
       k <> protocolValue DefiProtocol.MAKERDAO_DSR ->
       k <> protocolValue DefiProtocol.MAKERDAO_VAULTS ->
       k <> protocolValue DefiProtocol.YEARN_VAULTS_V2 ->
       obj_get string_dec k final = obj_get string_dec k loop) /\
    NoDup (Object_keys final) /\
    (forall n, addedWhenLoaded n = false ->
       length (filter (named n) out) <= 1).
Proof.
  intros Hdistinct.
  assert (N12 : protocolValue DefiProtocol.MAKERDAO_DSR <>
                protocolValue DefiProtocol.MAKERDAO_VAULTS).
  { inversion Hdistinct as [|? ? H _]; subst. simpl in H. intuition congruence. }
  assert (N13 : protocolValue DefiProtocol.MAKERDAO_DSR <>
                protocolValue DefiProtocol.YEARN_VAULTS_V2).
  { inversion Hdistinct as [|? ? H _]; subst. simpl in H. intuition congruence. }
  assert (N23 : protocolValue DefiProtocol.MAKERDAO_VAULTS <>
                protocolValue DefiProtocol.YEARN_VAULTS_V2).
  { inversion Hdistinct as [|? ? _ H]; subst.
    inversion H as [|? ? H' _]; subst. simpl in H'. intuition congruence. }
  destruct (overview_spec st) as [loop (Hl & Hwf & _ & Hm & Ho)].
  destruct (addLoaded_spec Hwf) as [Hnd Hass].
  exists loop, (addLoaded st loop),
    (filter listed (sortByName (Object_values (addLoaded st loop)))).
  repeat (split; [assumption|]).
  split; [|split; [|split; [|split; [assumption|]]]].
  - intros k s Hk Hs. destruct (proj2 Hwf k s Hs) as [_ Hst].
    now rewrite Hk in Hst.
  - intros Hr. split; [|split].
    + now apply addLoaded_DSR.
    + now apply addLoaded_VAULTS.
    + intros v2. now apply addLoaded_V2.
  - intros k. apply addLoaded_other.
  - intros n Hn. rewrite filter_comm.
    etransitivity; [apply length_filter_le|].
    rewrite (Permutation_length
               (Permutation_filter (named n) (sortByName_perm _))).
    apply named_once; [assumption|].
    intros k s Hin Hnamed. apply String.eqb_eq in Hnamed.
    pose proof (obj_get_NoDup string_dec _ _ _ Hnd Hin) as Hget.
    destruct (Hass k s Hget) as [[_ [Hname _]]|[Hadd _]].
    + congruence.
    + unfold named in Hnamed. rewrite Hnamed in Hadd. congruence.
Qed.

(** C9 at the constants of rotki. *)
Lemma overview_assembly_witness :
  exists loop final out,
    @accumulateAll rotki makerTwice [] (entries (allProtocols makerTwice))
      = Ok loop /\
    @summaryMap rotki makerTwice = Ok final /\
    @overview rotki makerTwice = Ok out /\
    obj_get string_dec "makerdao_dsr" final =
      Some (@makerDAODSRSummary rotki makerTwice) /\
    obj_get string_dec "MakerDAO DSR" final =
      obj_get string_dec "MakerDAO DSR" loop /\
    length (filter (named "Curve") out) <= 1.
Proof.
  destruct (@overview_assembly rotki makerTwice)
    as [loop [final [out (H1 & H2 & H3 & _ & H5 & H6 & _ & H8)]]].
  - repeat (constructor; [simpl; intuition discriminate|]). constructor.
  - exists loop, final, out. repeat (split; [assumption|]).
    split; [|split].
    + apply H5; reflexivity.
    + apply H6; discriminate.
    + apply H8. reflexivity.
Defined.

(** C9 as stated fails: an entry named as the DSR is accumulated under its
    display name while the DSR summary is stored under the enum value, and
    the display name is listed twice. *)
Lemma overview_lists_a_name_twice :
  exists generic,
    @overview rotki makerTwice =
    Ok [ generic; @makerDAODSRSummary rotki makerTwice;
         mkDefiProtocolSummary
           (mkDefiProtocolInfo "yearn.finance Vaults v2"
              "yearn.finance Vaults v2.svg")
           None [] None true false
           (Some "/defi/deposits?protocol=yearn_vaults_v2") None
           Zero Zero (BigNumber.of_Z 10) ] /\
    name (protocol generic) = "MakerDAO DSR" /\
    name (protocol (@makerDAODSRSummary rotki makerTwice)) = "MakerDAO DSR" /\
    tokenInfo generic = Some (TokenInfo.make "Dai" "DAI") /\
    balanceUsd generic = Some (BigNumber.of_Z 5).
Proof. eexists. repeat split. Qed.

(* ================================================================== *)
(** ** The summary of one protocol *)

Section GenericFacts.
Context {imports : Imports}.
Implicit Types (e entry : DefiProtocolData.t) (c s next : DefiProtocolSummary)
  (current r : option DefiProtocolSummary) (es : list DefiProtocolData.t).

Lemma foldGeneric_app es es' current :
  foldGeneric current (es ++ es') =
  (r <- foldGeneric current es ;; foldGeneric r es').
Proof.
  revert current. induction es as [|e es IH]; intros current; simpl.
  - reflexivity.
  - destruct (genericStep current e); simpl; [apply IH|reflexivity].
Qed.

Lemma assetStep_tokenInfo s entry next :
  assetStep s entry = Ok next -> tokenInfo next = tokenInfo s.
Proof.
  intros H. destruct (assetStep_ok s entry) as [next' [H' [_ Ht]]].
  congruence.
Qed.

Lemma genericStep_seeds entry next :
  genericStep None entry = Ok next ->
  tokenInfo next =
  Some (TokenInfo.make (tokenName (DefiProtocolData.baseBalance entry))
          (tokenSymbol (DefiProtocolData.baseBalance entry))).
Proof.
  unfold genericStep. simpl. intros H.
  now rewrite (@assetStep_tokenInfo _ entry next H).
Qed.

Lemma genericStep_tokenInfo c info entry next :
  tokenInfo c = Some info ->
  genericStep (Some c) entry = Ok next ->
  tokenInfo next =
  if String.eqb (TokenInfo.tokenName info)
       (tokenName (DefiProtocolData.baseBalance entry))
  then Some info else Some collapsed.
Proof.
  intros Hi. unfold genericStep, seedStep. rewrite Hi.
  destruct (String.eqb _ _); simpl; intros H;
    rewrite (@assetStep_tokenInfo _ entry next H); [assumption|reflexivity].
Qed.

(** Once collapsed, [tokenInfo] stays collapsed. *)
Lemma foldGeneric_collapsed es : forall c r,
  tokenInfo c = Some collapsed ->
  foldGeneric (Some c) es = Ok r ->
  exists s, r = Some s /\ tokenInfo s = Some collapsed.
Proof.
  induction es as [|e es IH]; intros c r Hc; simpl.
  - intros [= <-]. eauto.
  - destruct (genericStep (Some c) e) as [next|] eqn:En; simpl;
      [|discriminate].
    apply IH. rewrite (@genericStep_tokenInfo c collapsed e next Hc En).
    destruct (String.eqb _ _); reflexivity.
Qed.

(** An entry with another token name collapses it. *)
Lemma foldGeneric_collapses es : forall c info r,
  tokenInfo c = Some info ->
  (exists e, In e es /\
     tokenName (DefiProtocolData.baseBalance e) <> TokenInfo.tokenName info) ->
  foldGeneric (Some c) es = Ok r ->
  exists s, r = Some s /\ tokenInfo s = Some collapsed.
Proof.
  induction es as [|e es IH]; intros c info r Hc [e' [Hin Hne]]; simpl.
  - destruct Hin.
  - destruct (genericStep (Some c) e) as [next|] eqn:En; simpl;
      [|discriminate].
    pose proof (@genericStep_tokenInfo c info e next Hc En) as Hn.
    destruct (String.eqb_spec (TokenInfo.tokenName info)
                (tokenName (DefiProtocolData.baseBalance e))) as [E|N].
    + apply (IH next info r Hn). exists e'. split; [|assumption].
      destruct Hin as [<-|Hin]; [congruence|assumption].
    + now apply foldGeneric_collapsed.
Qed.

Lemma foldGeneric_two_names es r e1 e2 :
  In e1 es -> In e2 es ->
  tokenName (DefiProtocolData.baseBalance e1) <>
  tokenName (DefiProtocolData.baseBalance e2) ->
  foldGeneric None es = Ok r ->
  exists s, r = Some s /\ tokenInfo s = Some collapsed.
Proof.
  destruct es as [|e0 es]; [intros []|].
  intros H1 H2 Hne. simpl.
  destruct (genericStep None e0) as [next|] eqn:En; simpl; [|discriminate].
  intros Hr.
  pose proof (@genericStep_seeds e0 next En) as Hseed.
  apply (@foldGeneric_collapses es next _ r Hseed); [|assumption]. simpl.
  destruct (string_dec (tokenName (DefiProtocolData.baseBalance e1))
              (tokenName (DefiProtocolData.baseBalance e0))) as [E1|N1].
  - exists e2. split; [|congruence].
    destruct H2 as [<-|H2]; [congruence|assumption].
  - exists e1. split; [|assumption].
    destruct H1 as [<-|H1]; [congruence|assumption].
Qed.
End GenericFacts.

(** C5: once the entries of a protocol without dedicated summary carry two
    token names, its [tokenInfo] is the multiple-assets label with an empty
    symbol, whatever entries follow. *)
Theorem tokenInfo_collapse_is_final (imports : Imports) (st : Store)
    (es more : list DefiProtocolData.t) (p : string)
    (e1 e2 : DefiProtocolData.t) :
  bypassed p = false ->
  In e1 es -> In e2 es ->
  protocolName e1 = p -> protocolName e2 = p ->
  tokenName (DefiProtocolData.baseBalance e1) <>
  tokenName (DefiProtocolData.baseBalance e2) ->
  exists summary s,
    accumulateAll st [] (es ++ more) = Ok summary /\
    obj_get string_dec p summary = Some s /\
    tokenInfo s = Some (TokenInfo.make multiple_assets "").
Proof.
  intros Hb H1 H2 Hp1 Hp2 Hne.
  destruct (@accumulateAll_spec _ st (es ++ more) [] (wellFormed_nil st))
    as [summary (Hacc & _ & Hfold)].
  specialize (Hfold p Hb). simpl in Hfold.
  assert (Hin : forall e, In e es -> protocolName e = p ->
                          In e (entriesOf p (es ++ more))).
  { intros e He Hp. apply filter_In. split.
    - apply in_or_app. now left.
    - now apply String.eqb_eq. }
  destruct (@foldGeneric_two_names _ _ _ e1 e2 (Hin e1 H1 Hp1) (Hin e2 H2 Hp2) Hne Hfold)
    as [s [Hs Ht]].
  exists summary, s. auto.
Qed.

(** C5 at two entries of two tokens followed by one of the first token. *)
Lemma tokenInfo_collapse_is_final_witness :
  exists summary s,
    @accumulateAll rotki idle []
      (twoNames ++ [entryOf "X" "0xA" "Dai" "DAI" 1 1 Asset]) = Ok summary /\
    obj_get string_dec "X" summary = Some s /\
    tokenInfo s = Some (TokenInfo.make "Multiple assets" "").
Proof.
  apply (@tokenInfo_collapse_is_final rotki idle twoNames
           [entryOf "X" "0xA" "Dai" "DAI" 1 1 Asset] "X"
           (entryOf "X" "0xA" "Dai" "DAI" 10 100 Asset)
           (entryOf "X" "0xB" "Tether" "USDT" 5 50 Asset)).
  - reflexivity.
  - simpl. auto.
  - simpl. auto.
  - reflexivity.
  - reflexivity.
  - discriminate.
Defined.

(* ================================================================== *)
(** ** The asset slots of one protocol *)

Lemma total_snoc (l : list BigNumber) (x : BigNumber) :
  Qeq (total (l ++ [x])) (Qplus (total l) (BigNumber.toQ x)).
Proof.
  induction l as [|y l IH]; simpl.
  - ring.
  - rewrite IH. ring.
Qed.

Section SlotFacts.
Implicit Types (slots : list DefiAsset) (a : string) (v old x : DefiAsset).






End SlotFacts.

Section AssetFacts.
Context {imports : Imports}.
Implicit Types (e entry : DefiProtocolData.t) (c s next : DefiProtocolSummary)
  (current r : option DefiProtocolSummary) (es : list DefiProtocolData.t).

(** The assets after one entry: untouched by a liability; for an asset,
    the first slot of its token is merged, or a slot is appended. *)
Lemma genericStep_assets current e next :
  genericStep current e = Ok next ->
  match DefiProtocolData.balanceType e with
  | Liability => assets next = assetsOf current
  | Asset =>
      let a0 := tokenAddress (DefiProtocolData.baseBalance e) in
      match findIndex (hasAddress a0) (assetsOf current) with
      | Some i =>
          exists old,
            nth_error (assetsOf current) i = Some old /\
            assets next = array_set i (merged old e) (assetsOf current)
      | None =>
          assets next = assetsOf current ++ [DefiProtocolData.baseBalance e]
      end
  end.
Proof.
  unfold genericStep.
  destruct (seedStep current e) as [seeded|] eqn:Es; simpl; [|discriminate].
  assert (Ha : assets seeded = assetsOf current).
  { destruct current as [c|].
    - now destruct (@seedStep_frame _ c e seeded Es) as [_ [_ ?]].
    - unfold seedStep in Es. now injection Es as <-. }
  unfold assetStep. destruct (DefiProtocolData.balanceType e).
  - cbv zeta. simpl assets. rewrite Ha.
    fold (hasAddress (tokenAddress (DefiProtocolData.baseBalance e))).
    destruct (findIndex _ (assetsOf current)) as [i|].
    + destruct (nth_error (assetsOf current) i) as [old|]; [|discriminate].
      intros [= <-]. exists old. split; reflexivity.
    + intros [= <-]. reflexivity.
  - intros [= <-]. assumption.
Qed.



End AssetFacts.






(** The example of the specification, evaluated. *)
Example sameToken_summary :
  exists s,
    @accumulateAll rotki idle [] sameToken = Ok [("X", s)] /\
    assets s =
      [mkDefiAsset "0xA" "Dai" "DAI"
         (mkBalance (BigNumber.of_Z 15) (BigNumber.of_Z 150))] /\
    balanceUsd s = Some (BigNumber.of_Z 150).
Proof. eexists. repeat split. Qed.

(* ================================================================== *)
(** ** The fetch of the overview *)

Lemma getStatus_setStatus (status : Status.t) (section : SectionId.t)
    (st : Store) :
  getStatus (setStatus status section st) section = status.
Proof.
  simpl. destruct (SectionId.eq_dec section section); congruence.
Qed.

Lemma getStatus_setStatus_other (status : Status.t)
    (section section' : SectionId.t) (st : Store) :
  section' <> section ->
  getStatus (setStatus status section st) section' = getStatus st section'.
Proof.
  intros N. simpl. destruct (SectionId.eq_dec section' section); congruence.
Qed.

Section FetchFacts.
Variable Raw : Type.
Variable parse : Raw -> JsError.t + AllDefiProtocols.

(** A run the guard lets through and that meets an error settles normally,
    with the error notified, the payload kept and the section loaded. *)
Lemma fetchDefiBalances_caught (refresh : bool) (caller : Promise nat)
    (task : nat -> Promise Raw) (st : Store) (e : JsError.t) :
  fetchDisabled refresh SectionId.DEFI_BALANCES st = false ->
  failure parse caller task = Some e ->
  exists st',
    fetchDefiBalances parse refresh caller task st =
      (st', Return (Fulfilled tt)) /\
    notifications st' = notifications st ++ [errorNotification e] /\
    allProtocols st' = allProtocols st /\
    getStatus st' SectionId.DEFI_BALANCES = Status.LOADED.
Proof.
  intros Hguard Hfail. unfold fetchDefiBalances, fetchDefiBalances_start.
  rewrite Hguard. unfold failure in Hfail.
  destruct caller as [taskId|e0]; simpl.
  - destruct (task taskId) as [result|e1]; simpl.
    + destruct (parse result) as [e2|parsed]; [|discriminate].
      injection Hfail as <-. eexists. split; [reflexivity|].
      simpl. repeat split.
    + injection Hfail as <-. eexists. split; [reflexivity|].
      simpl. repeat split.
  - injection Hfail as <-. eexists. split; [reflexivity|].
    simpl. repeat split.
Qed.
End FetchFacts.

(** C8: a run of [fetchDefiBalances] that fails before [allProtocols] is
    replaced shows a notification carrying the message of the error, leaves
    [allProtocols] as it was and sets the section of the overview balances
    to LOADED. *)
Theorem failed_fetch_notifies_and_completes (Raw : Type)
    (parse : Raw -> JsError.t + AllDefiProtocols) (refresh : bool)
    (caller : Promise nat) (task : nat -> Promise Raw) (st : Store)
    (e : JsError.t) :
  fetchDisabled refresh SectionId.DEFI_BALANCES st = false ->
  failure parse caller task = Some e ->
  exists st' n,
    fetchDefiBalances parse refresh caller task st =
      (st', Return (Fulfilled tt)) /\
    notifications st' = notifications st ++ [n] /\
    display n = true /\
    In ("error", JsError.message e) (i18n_params (message n)) /\
    allProtocols st' = allProtocols st /\
    getStatus st' SectionId.DEFI_BALANCES = Status.LOADED.
Proof.
  intros Hguard Hfail.
  destruct (fetchDefiBalances_caught parse refresh caller task st Hguard Hfail)
    as [st' (H1 & H2 & H3 & H4)].
  exists st', (errorNotification e). repeat (split; [assumption|]).
  split; [reflexivity|]. split; [now left|]. split; assumption.
Qed.

(** C8 at a task that is rejected. *)
Lemma failed_fetch_notifies_and_completes_witness :
  exists st' n,
    fetchDefiBalances acceptAll false (Fulfilled 7)
      (fun _ => Rejected (JsError.make "Task failed")) zeroBalance =
      (st', Return (Fulfilled tt)) /\
    notifications st' = notifications zeroBalance ++ [n] /\
    display n = true /\
    In ("error", "Task failed") (i18n_params (message n)) /\
    allProtocols st' = allProtocols zeroBalance /\
    getStatus st' SectionId.DEFI_BALANCES = Status.LOADED.
Proof.
  apply (@failed_fetch_notifies_and_completes AllDefiProtocols acceptAll false
           (Fulfilled 7) (fun _ => Rejected (JsError.make "Task failed"))
           zeroBalance (JsError.make "Task failed")).
  - reflexivity.
  - reflexivity.
Defined.

(** C2, as the code has it: the payload is validated inside the [try]
    block, so a validation failure is caught: the promise of
    [fetchDefiBalances] is fulfilled, the error is notified, [allProtocols]
    is kept and the section is set to LOADED. *)
Theorem validation_failure_is_caught (Raw : Type)
    (parse : Raw -> JsError.t + AllDefiProtocols) (refresh : bool)
    (taskId : nat) (task : nat -> Promise Raw) (result : Raw) (st : Store)
    (e : JsError.t) :
  fetchDisabled refresh SectionId.DEFI_BALANCES st = false ->
  task taskId = Fulfilled result ->
  parse result = inl e ->
  exists st',
    fetchDefiBalances parse refresh (Fulfilled taskId) task st =
      (st', Return (Fulfilled tt)) /\
    notifications st' = notifications st ++ [errorNotification e] /\
    allProtocols st' = allProtocols st /\
    getStatus st' SectionId.DEFI_BALANCES = Status.LOADED.
Proof.
  intros Hguard Htask Hparse.
  apply fetchDefiBalances_caught; [assumption|].
  unfold failure. now rewrite Htask, Hparse.
Qed.

(** C2 at a payload the schema rejects. *)
Lemma validation_failure_is_caught_witness :
  exists st',
    fetchDefiBalances rejectAll false (Fulfilled 7) (fun _ => Fulfilled tt)
      zeroBalance = (st', Return (Fulfilled tt)) /\
    notifications st' =
      notifications zeroBalance ++
      [errorNotification (JsError.make "Invalid payload")] /\
    allProtocols st' = allProtocols zeroBalance /\
    getStatus st' SectionId.DEFI_BALANCES = Status.LOADED.
Proof.
  apply (@validation_failure_is_caught unit rejectAll false 7
           (fun _ => Fulfilled tt) tt zeroBalance
           (JsError.make "Invalid payload")); reflexivity.
Defined.

(** C2 as stated fails: with a payload the schema rejects, the promise of
    [fetchDefiBalances] is fulfilled, not rejected, and the error ends in a
    notification. *)
Lemma validation_failure_does_not_propagate :
  let run :=
    fetchDefiBalances rejectAll false (Fulfilled 7) (fun _ => Fulfilled tt)
      zeroBalance in
  snd run = Return (Fulfilled tt) /\
  (forall e, snd run <> Return (Rejected e)) /\
  notifications (fst run) =
    [errorNotification (JsError.make "Invalid payload")].
Proof.
  cbv zeta. split; [reflexivity|]. split; [|reflexivity].
  intros e. discriminate.
Qed.

(** C7: with the section in flight and [refresh] false, a call is a no-op:
    the store is untouched, nothing is submitted and the promise is
    fulfilled; the first call puts its section in flight before its first
    [await], having submitted one task, so that a second call made before
    the first has settled submits nothing. *)
Theorem in_flight_fetch_is_noop (st : Store) :
  (isLoading (getStatus st SectionId.DEFI_BALANCES) = true ->
   fetchDefiBalances_start false st = (st, Return (Fulfilled tt))) /\
  (isLoading (getStatus st defaultSection) = true ->
   fetchAllDefi_start false st = (st, Return (Fulfilled tt))) /\
  (forall refresh st1 p,
     fetchDefiBalances_start refresh st = (st1, Await p) ->
     submitted st1 = S (submitted st) /\
     fetchDefiBalances_start false st1 = (st1, Return (Fulfilled tt)) /\
     forall taskId,
       fetchDefiBalances_submitted (Fulfilled taskId) st1 =
         (st1, Await (AwaitingTask taskId))) /\
  (forall refresh st1 p,
     fetchAllDefi_start refresh st = (st1, Await p) ->
     submitted st1 <= S (submitted st) /\
     fetchAllDefi_start false st1 = (st1, Return (Fulfilled tt))).
Proof.
  split; [|split; [|split]].
  - intros H. unfold fetchDefiBalances_start, fetchDisabled. now rewrite H.
  - intros H. unfold fetchAllDefi_start, fetchDisabled. now rewrite H.
  - intros refresh st1 p. unfold fetchDefiBalances_start.
    destruct (fetchDisabled refresh SectionId.DEFI_BALANCES st); [discriminate|].
    intros [= <- _]. split; [reflexivity|]. split; reflexivity.
  - intros refresh st1 p. unfold fetchAllDefi_start.
    destruct (fetchDisabled refresh defaultSection st); [discriminate|].
    set (st0 := setStatus _ defaultSection st).
    assert (Hst0 : isLoading (getStatus st0 defaultSection) = true).
    { subst st0. rewrite getStatus_setStatus. now destruct refresh. }
    unfold fetchDefiBalances_start.
    destruct (fetchDisabled refresh SectionId.DEFI_BALANCES st0).
    + intros [= <- _]. split; [simpl; lia|].
      unfold fetchDisabled. now rewrite Hst0.
    + intros [= <- _]. split; [simpl; lia|].
      unfold fetchDisabled. simpl negb. cbn [andb].
      change (getStatus (fetchAllDefiCaller
                (setStatus Status.LOADING SectionId.DEFI_BALANCES st0))
                defaultSection)
        with (getStatus (setStatus Status.LOADING SectionId.DEFI_BALANCES st0)
                defaultSection).
      rewrite getStatus_setStatus_other by discriminate.
      now rewrite Hst0.
Qed.

(** C7 at a store whose sections are loading, and at an idle one. *)
Lemma in_flight_fetch_is_noop_witness :
  fetchDefiBalances_start false loadingBalances =
    (loadingBalances, Return (Fulfilled tt)) /\
  fetchAllDefi_start false loadingBalances =
    (loadingBalances, Return (Fulfilled tt)) /\
  submitted (fst (fetchAllDefi_start false idle)) = 1 /\
  fetchAllDefi_start false (fst (fetchAllDefi_start false idle)) =
    (fst (fetchAllDefi_start false idle), Return (Fulfilled tt)).
Proof.
  destruct (in_flight_fetch_is_noop loadingBalances) as (H1 & H2 & _ & _).
  destruct (in_flight_fetch_is_noop idle) as (_ & _ & _ & H4).
  split; [apply H1; reflexivity|]. split; [apply H2; reflexivity|].
  split; [reflexivity|].
  apply (H4 false (fst (fetchAllDefi_start false idle))
           (AwaitingBalances (Await AwaitingCaller))).
  reflexivity.
Defined.

(** C3, as the code has it: the loop iterates the keys of [addresses] in the
    order of its literal, MAKERDAO_DSR, AAVE, COMPOUND, YEARN_VAULTS,
    YEARN_VAULTS_V2; the protocols of each account are listed in that
    order, and the accounts come in the order in which that iteration sees
    their address first. *)
Theorem defiAccounts_order (Any : Type) (filter : list DefiProtocol.t)
    (d : AdapterData Any) :
  let order :=
    [ DefiProtocol.MAKERDAO_DSR; DefiProtocol.AAVE; DefiProtocol.COMPOUND;
      DefiProtocol.YEARN_VAULTS; DefiProtocol.YEARN_VAULTS_V2 ] in
  Object_keys (addresses filter d) = order /\
  defiAccounts filter d =
    map (accountOf (addresses filter d))
      (js_filter uniqueStrings (sightings (addresses filter d))) /\
  forall account, In account (defiAccounts filter d) ->
    orderedBy order (protocols account).
Proof.
  cbv zeta. split; [reflexivity|]. split; [apply defiAccounts_spec|].
  intros account. rewrite defiAccounts_spec. intros Hin.
  apply in_map_iff in Hin. destruct Hin as [a [<- _]].
  rewrite addresses_eq. unfold accountOf. cbn [protocols List.filter snd].
  repeat match goal with
         | |- context [includes string_dec a ?l] =>
             destruct (includes string_dec a l)
         end; reflexivity.
Qed.

(** C3 as stated fails: an address with balances in Aave and in the DSR
    has MAKERDAO_DSR listed before AAVE. *)
Lemma defiAccounts_lists_DSR_first :
  defiAccounts [] aaveAndDsr =
    [ mkDefiAccount "0xa" Blockchain.ETH
        [DefiProtocol.MAKERDAO_DSR; DefiProtocol.AAVE] ] /\
  ~ (forall account, In account (defiAccounts [] aaveAndDsr) ->
       orderedBy
         [ DefiProtocol.AAVE; DefiProtocol.COMPOUND; DefiProtocol.YEARN_VAULTS;
           DefiProtocol.YEARN_VAULTS_V2; DefiProtocol.MAKERDAO_DSR ]
         (protocols account)).
Proof.
  split; [reflexivity|]. intros H.
  specialize (H _ (or_introl eq_refl)). discriminate H.
Qed.

(* ================================================================== *)
(** ** More on [defiAccounts] *)

Section DefiAccountsMore.
Variable Any : Type.
Implicit Types (d : AdapterData Any) (filter : list DefiProtocol.t).

Lemma In_defiAccounts filter d account :
  In account (defiAccounts filter d) <->
  exists a, account = accountOf (addresses filter d) a /\
            In a (sightings (addresses filter d)).
Proof.
  rewrite defiAccounts_spec, in_map_iff. split.
  - intros [a [<- Ha]]. exists a. split; [reflexivity|].
    now apply (proj1 (uniqueStrings_In _ _)).
  - intros [a [-> Ha]]. exists a. split; [reflexivity|].
    now apply uniqueStrings_In.
Qed.

(** The address lists under a filter are those without filter, emptied for
    the protocols the filter leaves out. *)
Lemma addresses_restrict filter d :
  filter <> [] ->
  addresses filter d =
  map (fun entry =>
         (fst entry,
          if includes DefiProtocol.eq_dec (fst entry) filter
          then snd entry else []))
    (addresses [] d).
Proof.
  intros Hne. rewrite !addresses_eq. unfold getProtocolAddresses.
  destruct filter as [|p0 rest]; [congruence|].
  cbn [length Nat.eqb orb map fst snd app].
  repeat match goal with
         | |- context [includes DefiProtocol.eq_dec ?p (p0 :: rest)] =>
             destruct (includes DefiProtocol.eq_dec p (p0 :: rest))
         end; reflexivity.
Qed.

Lemma protocols_restrict (keep : DefiProtocol.t -> bool)
    (o : JsObject DefiProtocol.t (list string)) (a : string) :
  protocols
    (accountOf
       (map (fun entry => (fst entry, if keep (fst entry) then snd entry else []))
          o) a) =
  List.filter keep (protocols (accountOf o a)).
Proof.
  unfold accountOf. cbn [protocols].
  induction o as [|[p l] o IH]; simpl; [reflexivity|].
  destruct (keep p) eqn:Ek.
  - destruct (includes string_dec a l); simpl; rewrite ?Ek, IH; reflexivity.
  - unfold includes at 1. simpl.
    destruct (includes string_dec a l); simpl; rewrite ?Ek, IH; reflexivity.
Qed.
End DefiAccountsMore.

(** X1: under a non-empty filter, the accounts are those of the unfiltered
    list cut down to the filter: same address and chain, the protocols of
    the filter in the same order, and the accounts left without protocol
    dropped. *)
Theorem defiAccounts_filter_restricts (Any : Type)
    (filter : list DefiProtocol.t) (d : AdapterData Any)
    (account : DefiAccount) :
  filter <> [] ->
  (In account (defiAccounts filter d) <->
   exists full,
     In full (defiAccounts [] d) /\
     address account = address full /\
     chain account = chain full /\
     protocols account =
       List.filter (fun p => includes DefiProtocol.eq_dec p filter)
         (protocols full) /\
     protocols account <> []).
Proof.
  intros Hne. rewrite In_defiAccounts. split.
  - intros [a [-> Ha]]. exists (accountOf (addresses [] d) a).
    assert (Hp : protocols (accountOf (addresses filter d) a) =
                 List.filter (fun p => includes DefiProtocol.eq_dec p filter)
                   (protocols (accountOf (addresses [] d) a))).
    { rewrite (addresses_restrict d Hne).
      apply (protocols_restrict
               (fun p => includes DefiProtocol.eq_dec p filter)). }
    apply In_sightings in Ha. destruct Ha as [p [l [Hin Hal]]].
    assert (Hin' : In p (protocols (accountOf (addresses filter d) a))).
    { apply In_protocols_accountOf. eauto. }
    split; [|split; [reflexivity|split; [reflexivity|split; [exact Hp|]]]].
    + apply In_defiAccounts. exists a. split; [reflexivity|].
      rewrite Hp in Hin'. apply filter_In in Hin'. destruct Hin' as [Hin' _].
      apply In_protocols_accountOf in Hin'. destruct Hin' as [l' [H1 H2]].
      apply In_sightings. eauto.
    + intros E. rewrite E in Hin'. destruct Hin'.
  - intros [full (Hfull & Ha & Hc & Hp & Hnil)].
    apply In_defiAccounts in Hfull. destruct Hfull as [a [-> _]].
    exists a.
    assert (Hp' : protocols (accountOf (addresses filter d) a) =
                  protocols account).
    { rewrite (addresses_restrict d Hne).
      rewrite (protocols_restrict
                 (fun p => includes DefiProtocol.eq_dec p filter)).
      now rewrite Hp. }
    split.
    + destruct account as [a' c' ps']. simpl in *. subst a' c'.
      unfold accountOf in *. simpl in *. now rewrite Hp'.
    + destruct (protocols account) as [|p ps] eqn:E; [congruence|].
      assert (Hin : In p (protocols (accountOf (addresses filter d) a)))
        by (rewrite Hp'; now left).
      apply In_protocols_accountOf in Hin. destruct Hin as [l [H1 H2]].
      apply In_sightings. eauto.
Qed.

(** X1 at an address of Aave and of the DSR, filtered on Aave. *)
Lemma defiAccounts_filter_restricts_witness :
  In (mkDefiAccount "0xa" Blockchain.ETH [DefiProtocol.AAVE])
     (defiAccounts [DefiProtocol.AAVE] aaveAndDsr) <->
  exists full,
    In full (defiAccounts [] aaveAndDsr) /\
    "0xa" = address full /\
    Blockchain.ETH = chain full /\
    [DefiProtocol.AAVE] =
      List.filter
        (fun p => includes DefiProtocol.eq_dec p [DefiProtocol.AAVE])
        (protocols full) /\
    [DefiProtocol.AAVE] <> [].
Proof.
  apply (@defiAccounts_filter_restricts unit [DefiProtocol.AAVE] aaveAndDsr
           (mkDefiAccount "0xa" Blockchain.ETH [DefiProtocol.AAVE])).
  discriminate.
Defined.

(** X2: an account is on the single supported chain and has at least one
    protocol; the list is empty exactly when no eligible protocol that
    passes the filter references an address. *)
Theorem defiAccounts_accounts_have_a_protocol (Any : Type)
    (filter : list DefiProtocol.t) (d : AdapterData Any) :
  (forall account, In account (defiAccounts filter d) ->
     chain account = Blockchain.ETH /\ protocols account <> []) /\
  (defiAccounts filter d = [] <->
   forall p a, In p eligible -> selected filter p -> ~ references d p a).
Proof.
  split.
  - intros account Hin. apply In_defiAccounts in Hin.
    destruct Hin as [a [-> Ha]]. split; [reflexivity|].
    apply In_sightings in Ha. destruct Ha as [p [l [Hin Hal]]].
    assert (Hp : In p (protocols (accountOf (addresses filter d) a))).
    { apply In_protocols_accountOf. eauto. }
    intros E. rewrite E in Hp. destruct Hp.
  - split.
    + intros Hnil p a He Hs Hr.
      destruct (addresses_complete filter d He) as [l Hl].
      destruct (addresses_In Hl) as [_ Hl'].
      assert (Hin : In (accountOf (addresses filter d) a)
                      (defiAccounts filter d)).
      { apply In_defiAccounts. exists a. split; [reflexivity|].
        apply In_sightings. exists p, l. split; [assumption|].
        apply Hl'. tauto. }
      rewrite Hnil in Hin. destruct Hin.
    + intros Hnone.
      destruct (defiAccounts filter d) as [|account rest] eqn:E;
        [reflexivity|].
      exfalso.
      assert (Hin : In account (defiAccounts filter d))
        by (rewrite E; now left).
      apply In_defiAccounts in Hin. destruct Hin as [a [_ Ha]].
      apply In_sightings in Ha. destruct Ha as [p [l [Hin Hal]]].
      destruct (addresses_In Hin) as [He Hl]. apply Hl in Hal.
      destruct Hal as [Hs Hr]. exact (Hnone p a He Hs Hr).
Qed.

(* ================================================================== *)
(** ** The balance and the names of the summaries *)

Lemma total_array_set (slots : list DefiAsset) : forall i old v,
  nth_error slots i = Some old ->
  Qeq (Qplus (total (slotValues (array_set i v slots)))
             (BigNumber.toQ (usdValue (balance old))))
      (Qplus (total (slotValues slots))
             (BigNumber.toQ (usdValue (balance v)))).
Proof.
  unfold slotValues.
  induction slots as [|y slots IH]; intros [|i] old v; simpl;
    try discriminate.
  - intros [= <-]. ring.
  - intros Hold. specialize (IH i old v Hold).
    rewrite <- !Qplus_assoc, IH. ring.
Qed.

Section BalanceFacts.
Context {imports : Imports}.
Implicit Types (e entry : DefiProtocolData.t) (c s next : DefiProtocolSummary)
  (current r : option DefiProtocolSummary) (es : list DefiProtocolData.t).

Lemma seedStep_balance current e seeded :
  seedStep current e = Ok seeded -> balanceUsd seeded = balanceOf current.
Proof.
  destruct current as [c|].
  - intros H. now destruct (@seedStep_frame _ c e seeded H) as [_ [? _]].
  - unfold seedStep. now intros [= <-].
Qed.

(** [balanceUsd] after one entry. *)
Lemma genericStep_balance current e next :
  genericStep current e = Ok next ->
  balanceUsd next =
  match DefiProtocolData.balanceType e with
  | Asset =>
      Some (BigNumber.plus
              (match balanceOf current with Some b => b | None => Zero end)
              (usdValue (balance (DefiProtocolData.baseBalance e))))
  | Liability => balanceOf current
  end.
Proof.
  unfold genericStep.
  destruct (seedStep current e) as [seeded|] eqn:Es; simpl; [|discriminate].
  apply seedStep_balance in Es. unfold assetStep.
  destruct (DefiProtocolData.balanceType e).
  - cbv zeta. rewrite Es. destruct (findIndex _ _) as [i|].
    + destruct (nth_error _ i); [|discriminate]. now intros [= <-].
    + now intros [= <-].
  - intros [= <-]. assumption.
Qed.

Lemma usdValues_snoc es e :
  usdValues (es ++ [e]) =
  usdValues es ++
  match DefiProtocolData.balanceType e with
  | Asset => [usdValue (balance (DefiProtocolData.baseBalance e))]
  | Liability => []
  end.
Proof.
  unfold usdValues, isAsset. rewrite filter_app, map_app. simpl.
  destruct (DefiProtocolData.balanceType e); reflexivity.
Qed.

Lemma foldGeneric_balance es : forall r,
  foldGeneric None es = Ok r -> balanceSums r es.
Proof.
  induction es as [|e es IH] using rev_ind; intros r.
  - simpl. intros [= <-]. split; reflexivity.
  - rewrite foldGeneric_app.
    destruct (foldGeneric None es) as [r0|] eqn:E0; simpl; [|discriminate].
    destruct (genericStep r0 e) as [next|] eqn:En; simpl; [|discriminate].
    intros [= <-]. specialize (IH r0 eq_refl).
    pose proof (genericStep_balance _ _ En) as Hb.
    pose proof (genericStep_assets _ _ En) as Ha.
    unfold balanceSums in *. cbn [balanceOf assetsOf].
    rewrite usdValues_snoc, filter_app. unfold isAsset at 2 4. simpl filter.
    destruct (DefiProtocolData.balanceType e).
    + rewrite Hb. split; [intros H; now apply app_eq_nil in H|].
      rewrite total_snoc, toQ_plus.
      assert (Hprev :
        Qeq (BigNumber.toQ
               (match balanceOf r0 with Some b => b | None => Zero end))
            (total (usdValues es)) /\
        Qeq (BigNumber.toQ
               (match balanceOf r0 with Some b => b | None => Zero end))
            (total (slotValues (assetsOf r0)))).
      { destruct (balanceOf r0) as [b|].
        - tauto.
        - destruct IH as [Hnil Hassets]. unfold usdValues.
          rewrite Hnil, Hassets. split; reflexivity. }
      destruct Hprev as [Hp1 Hp2]. split; [now rewrite Hp1|].
      cbv zeta in Ha.
      destruct (findIndex _ (assetsOf r0)) as [i|].
      * destruct Ha as [old [Hold ->]].
        pose proof (total_array_set _ i (merged old e) Hold) as Ht.
        unfold merged in Ht at 2. simpl in Ht. rewrite toQ_plus in Ht.
        rewrite Hp2.
        apply (Qplus_inj_r _ _ (BigNumber.toQ (usdValue (balance old)))).
        rewrite Ht. ring.
      * rewrite Ha. unfold slotValues. rewrite map_app. simpl.
        rewrite total_snoc, Hp2. reflexivity.
    + rewrite Hb, Ha, !app_nil_r. exact IH.
Qed.

(** [tokenInfo] is kept by the entries that carry its token name. *)
Lemma foldGeneric_kept es : forall c info r,
  tokenInfo c = Some info ->
  Forall (fun e => tokenName (DefiProtocolData.baseBalance e) =
                   TokenInfo.tokenName info) es ->
  foldGeneric (Some c) es = Ok r ->
  exists s, r = Some s /\ tokenInfo s = Some info.
Proof.
  induction es as [|e es IH]; intros c info r Hc Hall; simpl.
  - intros [= <-]. eauto.
  - inversion Hall as [|? ? He Hes]; subst.
    destruct (genericStep (Some c) e) as [next|] eqn:En; simpl;
      [|discriminate].
    apply (IH next info r); [|assumption].
    rewrite (@genericStep_tokenInfo _ c info e next Hc En), He.
    now rewrite String.eqb_refl.
Qed.

Variable st : Store.

Lemma dedicated_fields p s :
  dedicated st p = Some s ->
  balanceUsd s = None /\ assets s = [] /\ tokenInfo s = None /\
  listed s = true.
Proof.
  unfold dedicated, protocolSummary.
  repeat (destruct (String.eqb p _);
          [destruct (negb _); [discriminate|]; intros [= <-];
           repeat split|]).
  discriminate.
Qed.

(** The keys of the map are names of entries. *)
Lemma accumulateAll_keys es : forall summary summary' k,
  accumulateAll st summary es = Ok summary' ->
  In k (Object_keys summary') ->
  In k (Object_keys summary) \/ exists e, In e es /\ protocolName e = k.
Proof.
  induction es as [|e es IH]; intros summary summary' k; simpl.
  - intros [= <-]. auto.
  - destruct (accumulate st summary e) as [summary1|] eqn:E1; simpl;
      [|discriminate].
    intros Hacc Hk. destruct (IH _ _ _ Hacc Hk) as [H1|[e' [He' Hn]]].
    + assert (Hstep : In k (Object_keys summary) \/ protocolName e = k).
      { destruct (bypassed (protocolName e)) eqn:Hb.
        - rewrite accumulate_bypassed in E1 by assumption.
          injection E1 as <-. unfold storeDisplayed in H1.
          destruct (dedicated st (protocolName e)) as [s|]; [|auto].
          destruct (shouldDisplay s); [|auto].
          apply In_keys_obj_set in H1. destruct H1; auto.
        - rewrite accumulate_generic in E1 by assumption.
          destruct (genericStep _ e) as [next|]; simpl in E1; [|discriminate].
          injection E1 as <-. apply In_keys_obj_set in H1.
          destruct H1; auto. }
      destruct Hstep; eauto.
    + eauto.
Qed.

Lemma addLoaded_not_ready loop :
  statusReady (getStatus st defaultSection) = false ->
  addLoaded st loop = loop.
Proof. intros H. unfold addLoaded. now rewrite H. Qed.

(** Where a value of the final map comes from. *)
Lemma final_values loop s :
  wellFormed st loop ->
  In s (Object_values (addLoaded st loop)) ->
  (exists k, obj_get string_dec k loop = Some s /\ stored st k s) \/
  (statusReady (getStatus st defaultSection) = true /\
   addedWhenLoaded (name (protocol s)) = true /\ listed s = true).
Proof.
  intros Hwf Hin.
  destruct (statusReady (getStatus st defaultSection)) eqn:Hr.
  - destruct (addLoaded_spec Hwf) as [Hnd Hass].
    destruct (In_values_get string_dec _ _ Hin Hnd) as [k Hk].
    destruct (Hass k s Hk) as [H|H]; [left; eauto|right; tauto].
  - rewrite addLoaded_not_ready in Hin by assumption. left.
    destruct (In_values_get string_dec _ _ Hin (proj1 Hwf)) as [k Hk].
    exists k. split; [assumption|]. now apply (proj2 Hwf).
Qed.
End BalanceFacts.



(** X6: while the entries of a protocol without dedicated summary carry
    the token name of its first entry, [tokenInfo] is the name and the
    symbol of that first entry; the symbols of the later entries are not
    looked at. *)
Theorem tokenInfo_of_the_first_entry (imports : Imports) (st : Store)
    (es rest : list DefiProtocolData.t) (p : string)
    (first : DefiProtocolData.t) :
  bypassed p = false ->
  entriesOf p es = first :: rest ->
  Forall (fun e => tokenName (DefiProtocolData.baseBalance e) =
                   tokenName (DefiProtocolData.baseBalance first)) rest ->
  exists summary s,
    accumulateAll st [] es = Ok summary /\
    obj_get string_dec p summary = Some s /\
    tokenInfo s =
      Some (TokenInfo.make (tokenName (DefiProtocolData.baseBalance first))
              (tokenSymbol (DefiProtocolData.baseBalance first))).
Proof.
  intros Hb Hes Hall.
  destruct (@accumulateAll_spec _ st es [] (wellFormed_nil st))
    as [summary (Hacc & _ & Hfold)].
  specialize (Hfold p Hb). simpl in Hfold. rewrite Hes in Hfold.
  simpl in Hfold.
  destruct (genericStep None first) as [next|] eqn:En; simpl in Hfold;
    [|discriminate].
  pose proof (@genericStep_seeds _ first next En) as Hseed.
  destruct (@foldGeneric_kept _ rest next _ _ Hseed Hall Hfold) as [s [Hs Ht]].
  exists summary, s. auto.
Qed.

(** X6 at two entries of one token name and two symbols. *)
Lemma tokenInfo_of_the_first_entry_witness :
  exists summary s,
    @accumulateAll rotki idle []
      [ entryOf "X" "0xA" "Dai" "DAI" 1 1 Asset;
        entryOf "Y" "0xC" "Ether" "ETH" 1 1 Asset;
        entryOf "X" "0xB" "Dai" "xDAI" 2 2 Liability ] = Ok summary /\
    obj_get string_dec "X" summary = Some s /\
    tokenInfo s = Some (TokenInfo.make "Dai" "DAI").
Proof.
  apply (@tokenInfo_of_the_first_entry rotki idle
           [ entryOf "X" "0xA" "Dai" "DAI" 1 1 Asset;
             entryOf "Y" "0xC" "Ether" "ETH" 1 1 Asset;
             entryOf "X" "0xB" "Dai" "xDAI" 2 2 Liability ]
           [ entryOf "X" "0xB" "Dai" "xDAI" 2 2 Liability ] "X"
           (entryOf "X" "0xA" "Dai" "DAI" 1 1 Asset)).
  - reflexivity.
  - reflexivity.
  - repeat constructor.
Defined.

(** X7: the balances of the entries named AAVE, COMPOUND,
    YEARN_FINANCE_VAULTS or LIQUITY never reach the overview: a listed
    summary of such a name (which is not also the name of a summary added
    after the loop) is the dedicated summary, computed from the lending
    totals alone, with [balanceUsd] unset, no asset and no [tokenInfo]; it
    is listed only when the payload has an entry of that name and one of
    its totals is positive. *)
Theorem bypassed_entries_bring_no_balance (imports : Imports) (st : Store) :
  exists out,
    overview st = Ok out /\
    forall s, In s out ->
      bypassed (name (protocol s)) = true ->
      addedWhenLoaded (name (protocol s)) = false ->
      dedicated st (name (protocol s)) = Some s /\
      shouldDisplay s = true /\
      balanceUsd s = None /\ assets s = [] /\ tokenInfo s = None /\
      exists e, In e (entries (allProtocols st)) /\
                protocolName e = name (protocol s).
Proof.
  destruct (overview_spec st) as [loop (Hl & Hwf & _ & _ & Ho)].
  eexists. split; [exact Ho|]. intros s Hs Hb Ha.
  apply filter_In in Hs. destruct Hs as [Hs _].
  apply (proj1 (In_sortByName _ _)) in Hs.
  destruct (final_values _ Hwf Hs) as [[k [Hk [Hn Hst]]]|[_ [Hadd _]]];
    [|congruence].
  subst k. rewrite Hb in Hst. destruct Hst as [Hd Hsd].
  destruct (dedicated_fields _ _ Hd) as (B & A & T & _).
  repeat (split; [assumption|]).
  destruct (@accumulateAll_keys _ st _ _ _ (name (protocol s)) Hl) as [[]|H];
    [|exact H].
  apply obj_get_In in Hk. apply in_map_iff.
  now exists (name (protocol s), s).
Qed.

(** X8: the final filter drops nothing but summaries of protocols without
    dedicated summary whose entries are all liabilities: a summary of the
    map that is not listed has [tokenInfo] set, [balanceUsd] unset and no
    asset, and every entry of its name is a [Liability]. *)
Theorem only_liability_summaries_are_dropped (imports : Imports) (st : Store) :
  exists final out,
    summaryMap st = Ok final /\ overview st = Ok out /\
    forall s, In s (Object_values final) -> ~ In s out ->
      bypassed (name (protocol s)) = false /\
      tokenInfo s <> None /\ balanceUsd s = None /\ assets s = [] /\
      (exists e, In e (entries (allProtocols st)) /\
                 protocolName e = name (protocol s)) /\
      forall e, In e (entries (allProtocols st)) ->
                protocolName e = name (protocol s) ->
                DefiProtocolData.balanceType e = Liability.
Proof.
  destruct (overview_spec st) as [loop (Hl & Hwf & Hfold & Hm & Ho)].
  eexists. eexists. split; [exact Hm|]. split; [exact Ho|].
  intros s Hs Hout.
  assert (Hlisted : listed s = false).
  { destruct (listed s) eqn:E; [|reflexivity]. exfalso. apply Hout.
    apply filter_In. split; [|assumption]. now apply In_sortByName. }
  destruct (final_values _ Hwf Hs) as [[k [Hk [Hn Hst]]]|[_ [_ Hl']]];
    [|congruence].
  subst k. destruct (bypassed (name (protocol s))) eqn:Hb.
  { destruct Hst as [Hd _]. destruct (dedicated_fields _ _ Hd) as (_ & _ & _ & L).
    congruence. }
  destruct Hst as (T & D & L).
  assert (B : balanceUsd s = None).
  { unfold listed in Hlisted. destruct (balanceUsd s); [discriminate|reflexivity]. }
  specialize (Hfold _ Hb). rewrite Hk in Hfold.
  pose proof (foldGeneric_balance _ Hfold) as Hsum.
  unfold balanceSums in Hsum. simpl in Hsum. rewrite B in Hsum.
  destruct Hsum as [Hnil Hassets].
  split; [reflexivity|]. repeat (split; [assumption|]). split.
  - destruct (@accumulateAll_keys _ st _ _ _ (name (protocol s)) Hl) as [[]|H];
      [|exact H].
    apply obj_get_In in Hk. apply in_map_iff.
    now exists (name (protocol s), s).
  - intros e He Hname.
    assert (Ha : isAsset e = false).
    { destruct (isAsset e) eqn:Ea; [|reflexivity].
      assert (Hin : In e (filter isAsset
                            (entriesOf (name (protocol s))
                               (entries (allProtocols st))))).
      { apply filter_In. split; [|assumption]. apply filter_In.
        split; [assumption|]. now apply String.eqb_eq. }
      rewrite Hnil in Hin. destruct Hin. }
    unfold isAsset in Ha.
    destruct (DefiProtocolData.balanceType e); [discriminate|reflexivity].
Qed.

(** Where the names of the listed summaries come from. *)
Lemma overview_origin (imports : Imports) (st : Store) :
  exists out,
    overview st = Ok out /\
    (forall s, In s out ->
       (exists e, In e (entries (allProtocols st)) /\
                  protocolName e = name (protocol s)) \/
       (statusReady (getStatus st defaultSection) = true /\
        addedWhenLoaded (name (protocol s)) = true)) /\
    (allProtocols st = [] ->
     statusReady (getStatus st defaultSection) = false -> out = []).
Proof.
  destruct (overview_spec st) as [loop (Hl & Hwf & _ & _ & Ho)].
  eexists. split; [exact Ho|]. split.
  - intros s Hs. apply filter_In in Hs. destruct Hs as [Hs _].
    apply (proj1 (In_sortByName _ _)) in Hs.
    destruct (final_values _ Hwf Hs) as [[k [Hk [Hn _]]]|[Hr [Hadd _]]];
      [left|right; auto].
    subst k.
    destruct (@accumulateAll_keys _ st _ _ _ (name (protocol s)) Hl) as [[]|H];
      [|exact H].
    apply obj_get_In in Hk. apply in_map_iff.
    now exists (name (protocol s), s).
  - intros Hempty Hr. rewrite Hempty in Hl. simpl in Hl.
    injection Hl as <-. rewrite addLoaded_not_ready by assumption.
    reflexivity.
Qed.

(** X9: a listed summary carries the display name of an entry of the
    payload, or, once the overview section is LOADED or REFRESHING, one of
    the three names added after the loop; with an empty payload and the
    section not loaded, the overview is empty. *)
Theorem overview_lists_names_of_the_payload (imports : Imports) (st : Store) :
  exists out,
    overview st = Ok out /\
    (forall s, In s out ->
       (exists e, In e (entries (allProtocols st)) /\
                  protocolName e = name (protocol s)) \/
       (statusReady (getStatus st defaultSection) = true /\
        addedWhenLoaded (name (protocol s)) = true)) /\
    (allProtocols st = [] ->
     statusReady (getStatus st defaultSection) = false -> out = []).
Proof. apply overview_origin. Qed.

(* ================================================================== *)
(** ** More on the fetch of the overview *)

Section FetchMore.
Variable Raw : Type.
Variable parse : Raw -> JsError.t + AllDefiProtocols.

Lemma sameElsewhere_refl (st : Store) : sameElsewhere st st.
Proof. repeat split. Qed.

Lemma sameElsewhere_setStatus (status : Status.t) (st st' : Store) :
  sameElsewhere st st' ->
  sameElsewhere st (setStatus status SectionId.DEFI_BALANCES st').
Proof.
  intros (H1 & H2 & H3 & H4). repeat split; try assumption.
  intros section N. rewrite getStatus_setStatus_other by assumption.
  now apply H1.
Qed.

(** Every run settles, fulfilled; one let through by the guard submits one
    task, ends with the section LOADED, and either keeps the payload,
    notifying an error, or replaces it without notification. *)
Lemma fetchDefiBalances_settles (refresh : bool) (caller : Promise nat)
    (task : nat -> Promise Raw) (st : Store) :
  exists st',
    fetchDefiBalances parse refresh caller task st =
      (st', Return (Fulfilled tt)) /\
    sameElsewhere st st' /\
    if fetchDisabled refresh SectionId.DEFI_BALANCES st
    then st' = st
    else
      submitted st' = S (submitted st) /\
      getStatus st' SectionId.DEFI_BALANCES = Status.LOADED /\
      match failure parse caller task with
      | Some e =>
          allProtocols st' = allProtocols st /\
          notifications st' = notifications st ++ [errorNotification e]
      | None =>
          notifications st' = notifications st /\
          exists taskId result,
            caller = Fulfilled taskId /\ task taskId = Fulfilled result /\
            parse result = inr (allProtocols st')
      end.
Proof.
  unfold fetchDefiBalances, fetchDefiBalances_start.
  destruct (fetchDisabled refresh SectionId.DEFI_BALANCES st) eqn:Hg.
  { exists st. split; [reflexivity|]. split; [apply sameElsewhere_refl|].
    reflexivity. }
  unfold failure. destruct caller as [taskId|e0]; simpl.
  - destruct (task taskId) as [result|e1] eqn:Et; simpl.
    + destruct (parse result) as [e2|parsed] eqn:Ep;
        (eexists; split; [reflexivity|]); (split; [repeat split|]);
        simpl; repeat split;
        try (intros section N;
             repeat (destruct (SectionId.eq_dec _ _); try congruence)).
      exists taskId, result. auto.
    + eexists. split; [reflexivity|]. split; [repeat split|];
        simpl; repeat split.
      intros section N.
      repeat (destruct (SectionId.eq_dec _ _); try congruence).
  - eexists. split; [reflexivity|]. split; [repeat split|];
      simpl; repeat split.
    intros section N.
    repeat (destruct (SectionId.eq_dec _ _); try congruence).
Qed.
End FetchMore.

(** X10: every run of [fetchDefiBalances] settles with a fulfilled promise
    and leaves the other sections, the lending totals and the adapters
    alone; a run the guard stops changes nothing; any other run submits one
    task, ends with its section LOADED, and either keeps the payload and
    notifies the error it met, or replaces the payload by the validated
    result without notification. *)
Theorem fetchDefiBalances_always_settles (Raw : Type)
    (parse : Raw -> JsError.t + AllDefiProtocols) (refresh : bool)
    (caller : Promise nat) (task : nat -> Promise Raw) (st : Store) :
  exists st',
    fetchDefiBalances parse refresh caller task st =
      (st', Return (Fulfilled tt)) /\
    sameElsewhere st st' /\
    if fetchDisabled refresh SectionId.DEFI_BALANCES st
    then st' = st
    else
      submitted st' = S (submitted st) /\
      getStatus st' SectionId.DEFI_BALANCES = Status.LOADED /\
      match failure parse caller task with
      | Some e =>
          allProtocols st' = allProtocols st /\
          notifications st' = notifications st ++ [errorNotification e]
      | None =>
          notifications st' = notifications st /\
          exists taskId result,
            caller = Fulfilled taskId /\ task taskId = Fulfilled result /\
            parse result = inr (allProtocols st')
      end.
Proof. apply fetchDefiBalances_settles. Qed.

Section FetchAllFacts.
Variable Raw : Type.
Variable parse : Raw -> JsError.t + AllDefiProtocols.

(** Resuming the call made by [fetchAllDefi] is running that call. *)
Lemma resumeBalances_run (refresh : bool) (caller : Promise nat)
    (task : nat -> Promise Raw) (st : Store) :
  resumeBalances parse (snd (fetchDefiBalances_start refresh st)) caller task
    (fst (fetchDefiBalances_start refresh st)) =
  fetchDefiBalances parse refresh caller task st.
Proof.
  unfold fetchDefiBalances, fetchDefiBalances_start.
  destruct (fetchDisabled refresh SectionId.DEFI_BALANCES st); reflexivity.
Qed.

Lemma fetchAllDefi_launch_eq (refresh : bool) (caller : Promise nat)
    (task : nat -> Promise Raw) (st st1 : Store) :
  fetchDisabled refresh defaultSection st = false ->
  fetchDefiBalances parse refresh caller task
    (setStatus (startedStatus refresh) defaultSection st) =
    (st1, Return (Fulfilled tt)) ->
  fetchAllDefi_launch parse refresh caller task st =
  (launch (adapterFetches refresh)
     (setStatus Status.PARTIALLY_LOADED defaultSection st1),
   Await AwaitingAdapters).
Proof.
  intros Hg Hrun. unfold fetchAllDefi_launch, fetchAllDefi_start.
  rewrite Hg. fold (startedStatus refresh).
  rewrite <- resumeBalances_run in Hrun.
  destruct (fetchDefiBalances_start refresh
              (setStatus (startedStatus refresh) defaultSection st))
    as [st0 inner].
  simpl in Hrun. rewrite Hrun. reflexivity.
Qed.
End FetchAllFacts.

(** X11: a call of [fetchAllDefi] the guard lets through runs to its end
    whatever becomes of the fetch of the balances: the overview section
    goes to PARTIALLY_LOADED, the seven adapter fetches are started in
    their fixed order with the [refresh] of the call, and the section ends
    LOADED with the promise fulfilled, whatever the adapters do meanwhile;
    at most one task is submitted, and none, the payload being kept, when
    the guard of [fetchDefiBalances] stops the inner call. *)
Theorem fetchAllDefi_runs_to_the_end (Raw : Type)
    (parse : Raw -> JsError.t + AllDefiProtocols) (refresh : bool)
    (caller : Promise nat) (task : nat -> Promise Raw)
    (adapters : Store -> Store) (st : Store) :
  fetchDisabled refresh defaultSection st = false ->
  exists mid,
    fetchAllDefi_launch parse refresh caller task st =
      (mid, Await AwaitingAdapters) /\
    getStatus mid defaultSection = Status.PARTIALLY_LOADED /\
    launched mid = launched st ++ adapterFetches refresh /\
    submitted mid <= S (submitted st) /\
    (fetchDisabled refresh SectionId.DEFI_BALANCES
       (setStatus (startedStatus refresh) defaultSection st) = true ->
     submitted mid = submitted st /\
     allProtocols mid = allProtocols st /\
     notifications mid = notifications st) /\
    fetchAllDefi parse refresh caller task adapters st =
      (setStatus Status.LOADED defaultSection (adapters mid),
       Return (Fulfilled tt)) /\
    getStatus (fst (fetchAllDefi parse refresh caller task adapters st))
      defaultSection = Status.LOADED.
Proof.
  intros Hg.
  destruct (fetchDefiBalances_settles parse refresh caller task
              (setStatus (startedStatus refresh) defaultSection st))
    as [st1 (Hrun & (_ & _ & _ & Hlaunched) & Hcase)].
  pose proof (@fetchAllDefi_launch_eq Raw parse refresh caller task st st1
                Hg Hrun) as Hl.
  eexists. split; [exact Hl|]. split; [|split; [|split; [|split; [|split]]]].
  - apply getStatus_setStatus.
  - simpl. now rewrite Hlaunched.
  - simpl. destruct (fetchDisabled refresh SectionId.DEFI_BALANCES _).
    + subst st1. simpl. lia.
    + destruct Hcase as [-> _]. simpl. lia.
  - intros Hinner. rewrite Hinner in Hcase. subst st1. repeat split.
  - unfold fetchAllDefi. rewrite Hl. reflexivity.
  - unfold fetchAllDefi. rewrite Hl. apply getStatus_setStatus.
Qed.

(** X11 at an idle store and a task that is rejected. *)
Lemma fetchAllDefi_runs_to_the_end_witness :
  exists mid,
    fetchAllDefi_launch acceptAll false (Fulfilled 7)
      (fun _ => Rejected (JsError.make "Task failed")) idle =
      (mid, Await AwaitingAdapters) /\
    getStatus mid defaultSection = Status.PARTIALLY_LOADED /\
    launched mid = adapterFetches false /\
    getStatus
      (fst (fetchAllDefi acceptAll false (Fulfilled 7)
              (fun _ => Rejected (JsError.make "Task failed"))
              (fun st => st) idle))
      defaultSection = Status.LOADED.
Proof.
  destruct (@fetchAllDefi_runs_to_the_end AllDefiProtocols acceptAll false
              (Fulfilled 7) (fun _ => Rejected (JsError.make "Task failed"))
              (fun st => st) idle eq_refl)
    as [mid (H1 & H2 & H3 & _ & _ & _ & H7)].
  exists mid. repeat (split; [assumption|]). assumption.
Defined.

(* ================================================================== *)
(** ** [resetDB] *)

Lemma includes_ext (A : Type) (dec : forall x y : A, {x = y} + {x <> y})
    (x : A) (l l' : list A) :
  (forall y, In y l <-> In y l') -> includes dec x l = includes dec x l'.
Proof.
  intros H. apply bool_eq_iff. rewrite !includes_In. apply H.
Qed.

Lemma fold_fetchHistory (calls : list HistoryFetch) : forall w,
  let w' := fold_left (fun w call => fetchHistory call w) calls w in
  historyFetches w' = historyFetches w ++ calls /\
  store w' = store w /\ premium w' = premium w /\
  resetCalls w' = resetCalls w /\ airdropResets w' = airdropResets w /\
  missingReset w' = missingReset w.
Proof.
  induction calls as [|call calls IH]; intros w; simpl.
  - rewrite app_nil_r. repeat split.
  - destruct (IH (fetchHistory call w)) as (H1 & H2 & H3 & H4 & H5 & H6).
    simpl in *. rewrite H1, <- app_assoc. repeat split; assumption.
Qed.

Lemma resetDB_start_eq (protocols : list DefiProtocol.t) (w : Session) :
  premium w = true ->
  loading SectionId.DEFI_LENDING_HISTORY (store w) = false ->
  resetDB_start protocols w =
  (fold_left (fun w call => fetchHistory call w) (wantedHistory protocols)
     (with_store w
        (setStatus Status.REFRESHING SectionId.DEFI_LENDING_HISTORY (store w))),
   Await (AwaitingAll (wantedHistory protocols))).
Proof.
  intros Hp Hl. unfold resetDB_start. rewrite Hp, Hl. simpl negb. cbv zeta.
  cbn [orb]. unfold wantedHistory, historyOf. cbn [filter map fst snd].
  destruct (includes DefiProtocol.eq_dec DefiProtocol.YEARN_VAULTS protocols),
    (includes DefiProtocol.eq_dec DefiProtocol.YEARN_VAULTS_V2 protocols),
    (includes DefiProtocol.eq_dec DefiProtocol.AAVE protocols); reflexivity.
Qed.

(** X12: with premium and no reset in flight, [resetDB] sets the
    lending-history section to REFRESHING and starts the history fetches of
    the protocols YEARN_VAULTS, YEARN_VAULTS_V2 and AAVE that the list
    names, once each and in that order, with [refresh] and [reset] set;
    the other protocols of the list, its order and its repetitions do not
    matter, and the payload is not touched. *)
Theorem resetDB_starts_the_named_histories
    (protocols : list DefiProtocol.t) (w : Session) :
  premium w = true ->
  loading SectionId.DEFI_LENDING_HISTORY (store w) = false ->
  exists w1,
    resetDB_start protocols w =
      (w1, Await (AwaitingAll (wantedHistory protocols))) /\
    historyFetches w1 = historyFetches w ++ wantedHistory protocols /\
    getStatus (store w1) SectionId.DEFI_LENDING_HISTORY = Status.REFRESHING /\
    allProtocols (store w1) = allProtocols (store w) /\
    resetCalls w1 = resetCalls w /\
    (forall call, In call (wantedHistory protocols) ->
       exists p, In p protocols /\ In (p, call) historyOf) /\
    forall protocols',
      (forall p, In p protocols <-> In p protocols') ->
      resetDB_start protocols' w = resetDB_start protocols w.
Proof.
  intros Hp Hl. rewrite (@resetDB_start_eq protocols w Hp Hl).
  eexists. split; [reflexivity|].
  destruct (fold_fetchHistory (wantedHistory protocols)
              (with_store w
                 (setStatus Status.REFRESHING SectionId.DEFI_LENDING_HISTORY
                    (store w)))) as (H1 & H2 & _ & H4 & _ & _).
  split; [exact H1|]. split; [|split; [|split; [exact H4|split]]].
  - rewrite H2. apply getStatus_setStatus.
  - now rewrite H2.
  - intros call Hc. unfold wantedHistory in Hc. apply in_map_iff in Hc.
    destruct Hc as [[p c] [E Hin]]. simpl in E. subst c.
    apply filter_In in Hin. destruct Hin as [Hin Hinc].
    exists p. split; [|assumption].
    now apply (proj1 (includes_In DefiProtocol.eq_dec p protocols)).
  - intros protocols' Hsame. rewrite (@resetDB_start_eq protocols' w Hp Hl).
    unfold wantedHistory.
    assert (E : forall p,
      includes DefiProtocol.eq_dec p protocols' =
      includes DefiProtocol.eq_dec p protocols).
    { intros p. apply includes_ext. intros y. symmetry. apply Hsame. }
    unfold historyOf. cbn [filter fst]. now rewrite !E.
Qed.

(** X12 at a list naming Aave twice, Compound and the first Yearn vaults. *)
Lemma resetDB_starts_the_named_histories_witness :
  exists w1,
    resetDB_start
      [DefiProtocol.AAVE; DefiProtocol.COMPOUND; DefiProtocol.AAVE;
       DefiProtocol.YEARN_VAULTS] (session idle true) =
      (w1,
       Await (AwaitingAll
                [yearn_fetchHistory true true ProtocolVersion.V1;
                 aave_fetchHistory true true])) /\
    historyFetches w1 =
      [yearn_fetchHistory true true ProtocolVersion.V1;
       aave_fetchHistory true true] /\
    getStatus (store w1) SectionId.DEFI_LENDING_HISTORY = Status.REFRESHING.
Proof.
  destruct (@resetDB_starts_the_named_histories
              [DefiProtocol.AAVE; DefiProtocol.COMPOUND; DefiProtocol.AAVE;
               DefiProtocol.YEARN_VAULTS] (session idle true)
              eq_refl eq_refl) as [w1 (H1 & H2 & H3 & _)].
  exists w1. split; [exact H1|]. split; [exact H2|exact H3].
Defined.

Lemma Promise_all_fulfilled (settled : list (Promise unit)) :
  Promise_all settled = Fulfilled tt <->
  forall e, ~ In (Rejected e) settled.
Proof.
  induction settled as [|[[]|e0] settled IH]; simpl.
  - split; [intros _ e []|reflexivity].
  - rewrite IH. split.
    + intros H e [E|Hin]; [discriminate|]. now apply (H e).
    + intros H e Hin. apply (H e). now right.
  - split; [discriminate|]. intros H. exfalso. apply (H e0). now left.
Qed.

Lemma Promise_all_rejected (settled : list (Promise unit)) (e : JsError.t) :
  Promise_all settled = Rejected e ->
  exists before after,
    settled = before ++ Rejected e :: after /\
    Forall (fun r => r = Fulfilled tt) before.
Proof.
  induction settled as [|[[]|e0] settled IH]; simpl; [discriminate| |].
  - intros H. destruct (IH H) as [before [after [-> Hb]]].
    exists (Fulfilled tt :: before), after. split; [reflexivity|].
    now constructor.
  - intros [= ->]. exists [], settled. split; [reflexivity|constructor].
Qed.

(** X13: a run of [resetDB] let through by its guard ends with the section
    LOADED and the promise fulfilled when no history fetch is rejected;
    when one is, the promise is rejected with the reason of the first
    rejection, the section is left REFRESHING, and, the section counting as
    in flight, every later call of [resetDB] returns at once. *)
Theorem resetDB_failure_leaves_the_section_refreshing
    (protocols : list DefiProtocol.t) (settled : list (Promise unit))
    (w : Session) :
  premium w = true ->
  loading SectionId.DEFI_LENDING_HISTORY (store w) = false ->
  exists w',
    fst (resetDB protocols settled w) = w' /\
    ((forall e, ~ In (Rejected e) settled) ->
     snd (resetDB protocols settled w) = Return (Fulfilled tt) /\
     getStatus (store w') SectionId.DEFI_LENDING_HISTORY = Status.LOADED) /\
    (forall e, In (Rejected e) settled ->
     (exists before e' after,
        settled = before ++ Rejected e' :: after /\
        Forall (fun r => r = Fulfilled tt) before /\
        snd (resetDB protocols settled w) = Return (Rejected e')) /\
     getStatus (store w') SectionId.DEFI_LENDING_HISTORY = Status.REFRESHING /\
     forall protocols',
       resetDB_start protocols' w' = (w', Return (Fulfilled tt))).
Proof.
  intros Hp Hl. eexists. split; [reflexivity|].
  unfold resetDB. rewrite (@resetDB_start_eq protocols w Hp Hl).
  destruct (fold_fetchHistory (wantedHistory protocols)
              (with_store w
                 (setStatus Status.REFRESHING SectionId.DEFI_LENDING_HISTORY
                    (store w)))) as (_ & H2 & H3 & _).
  cbv zeta in H2, H3.
  set (w1 := fold_left _ (wantedHistory protocols) _) in *.
  split.
  - intros Hall. apply Promise_all_fulfilled in Hall. rewrite Hall. simpl.
    split; [reflexivity|]. first [reflexivity | apply getStatus_setStatus].
  - intros e He.
    destruct (Promise_all settled) as [[]|e'] eqn:Ea.
    + exfalso. apply (proj1 (Promise_all_fulfilled settled) Ea e He).
    + simpl. split; [|split].
      * destruct (Promise_all_rejected _ Ea) as [before [after [Hs Hb]]].
        exists before, e', after. auto.
      * rewrite H2. apply getStatus_setStatus.
      * intros protocols'. unfold resetDB_start, loading.
        rewrite H3. simpl premium. rewrite H2.
        change (getStatus
                  (store (with_store w
                     (setStatus Status.REFRESHING
                        SectionId.DEFI_LENDING_HISTORY (store w))))
                  SectionId.DEFI_LENDING_HISTORY)
          with (getStatus
                  (setStatus Status.REFRESHING
                     SectionId.DEFI_LENDING_HISTORY (store w))
                  SectionId.DEFI_LENDING_HISTORY).
        rewrite getStatus_setStatus. simpl. now rewrite orb_true_r.
Qed.

(** X13 at a history fetch of Aave that is rejected. *)
Lemma resetDB_failure_leaves_the_section_refreshing_witness :
  snd (resetDB [DefiProtocol.AAVE] [Rejected (JsError.make "No history")]
         (session idle true)) =
    Return (Rejected (JsError.make "No history")) /\
  getStatus
    (store (fst (resetDB [DefiProtocol.AAVE]
                   [Rejected (JsError.make "No history")]
                   (session idle true))))
    SectionId.DEFI_LENDING_HISTORY = Status.REFRESHING.
Proof.
  destruct (@resetDB_failure_leaves_the_section_refreshing
              [DefiProtocol.AAVE] [Rejected (JsError.make "No history")]
              (session idle true) eq_refl eq_refl)
    as [w' (Hw & _ & Hrej)].
  destruct (Hrej (JsError.make "No history") (or_introl eq_refl))
    as (_ & Hs & _).
  split; [reflexivity|]. rewrite Hw. exact Hs.
Defined.

(* ================================================================== *)
(** ** [resetState] and [reset] *)

(** X14: [resetState] never throws and touches neither the store, nor the
    premium flag, nor the history fetches, nor the airdrops. For a module
    with a registered function it makes that one call and logs nothing; for
    any other module it makes no call and logs one warning naming the
    module. ALL_MODULES calls the ten registered functions in the order of
    their registration, ALL_DECENTRALIZED_EXCHANGES those of Uniswap,
    Sushiswap and Balancer in that order; neither logs a warning. *)
Theorem resetState_calls_the_registered_resets
    (params : ResetStateParams) (w : Session) :
  exists w',
    resetState params w = Ok w' /\ sameButResets w w' /\
    match params with
    | aModule m =>
        match obj_get ModuleId.eq_dec m modules with
        | Some call =>
            resetCalls w' = resetCalls w ++ [call] /\
            missingReset w' = missingReset w
        | None =>
            resetCalls w' = resetCalls w /\
            missingReset w' = missingReset w ++ [m] /\
            exists value, m = ModuleId.other value
        end
    | ALL_MODULES =>
        resetCalls w' = resetCalls w ++ Object_values modules /\
        missingReset w' = missingReset w
    | ALL_DECENTRALIZED_EXCHANGES =>
        resetCalls w' =
          resetCalls w ++ [uniswap_reset; sushiswap_reset; balancer_reset] /\
        missingReset w' = missingReset w
    end.
Proof.
  destruct params as [| |m].
  - eexists. split; [reflexivity|]. simpl. repeat split.
    now rewrite <- !app_assoc.
  - eexists. split; [reflexivity|]. simpl. repeat split.
    now rewrite <- !app_assoc.
  - unfold resetState.
    destruct (obj_get ModuleId.eq_dec m modules) as [call|] eqn:E.
    + eexists. split; [reflexivity|]. repeat split.
    + eexists. split; [reflexivity|]. repeat split.
      destruct m; try discriminate E. eauto.
Qed.

(** X15: [reset] never throws; it empties the payload, resets the airdrops
    once and every registered module once, in the order of registration,
    and leaves the statuses as they are; the overview computed next lists
    nothing but the summaries added after the loop, and nothing at all
    while the overview section is not LOADED or REFRESHING. Turning
    premium off runs [reset]; turning it on does nothing. *)
Theorem reset_empties_the_overview (imports : Imports) (w : Session) :
  exists w' out,
    reset w = Ok w' /\
    allProtocols (store w') = [] /\
    getStatus (store w') = getStatus (store w) /\
    airdropResets w' = S (airdropResets w) /\
    resetCalls w' = resetCalls w ++ Object_values modules /\
    missingReset w' = missingReset w /\
    overview (store w') = Ok out /\
    (forall s, In s out ->
       statusReady (getStatus (store w) defaultSection) = true /\
       addedWhenLoaded (name (protocol s)) = true) /\
    (statusReady (getStatus (store w) defaultSection) = false -> out = []) /\
    premiumChanged false w = Ok w' /\
    premiumChanged true w = Ok w.
Proof.
  destruct (overview_origin imports
              (with_allProtocols (store w) [])) as [out (Ho & Hnames & Hnil)].
  eexists. exists out. split; [reflexivity|]. simpl.
  split; [reflexivity|]. split; [reflexivity|]. split; [reflexivity|].
  split; [now rewrite <- !app_assoc|]. split; [reflexivity|].
  split; [exact Ho|]. split; [|split; [|split; reflexivity]].
  - intros s Hs. destruct (Hnames s Hs) as [[e [[] _]]|H]. exact H.
  - intros Hr. now apply Hnil.
Qed.

(* ================================================================== *)
(** ** What [overview] reads of the payload *)

Lemma accumulateAll_payload (imports : Imports) (st : Store)
    (d : AllDefiProtocols) (es : list DefiProtocolData.t) :
  forall summary,
    accumulateAll (with_allProtocols st d) summary es =
    accumulateAll st summary es.
Proof.
  induction es as [|e es IH]; intros summary; simpl; [reflexivity|].
  change (accumulate (with_allProtocols st d) summary e)
    with (accumulate st summary e).
  destruct (accumulate st summary e); simpl; [apply IH|reflexivity].
Qed.

(** X16: the overview reads the payload as the sequence of its entries:
    two payloads with the same entries in the same order, whatever the
    addresses they are filed under, give the same overview. *)
Theorem overview_ignores_the_addresses (imports : Imports) (st : Store)
    (d : AllDefiProtocols) :
  entries d = entries (allProtocols st) ->
  overview (with_allProtocols st d) = overview st.
Proof.
  intros He. unfold overview, summaryMap.
  change (allProtocols (with_allProtocols st d)) with d.
  rewrite !accumulateAddresses_entries by apply incl_refl.
  fold (entries d). fold (entries (allProtocols st)).
  rewrite He, accumulateAll_payload.
  destruct (accumulateAll st [] (entries (allProtocols st))); reflexivity.
Qed.

(** X16 at the entries of one address filed under two. *)
Lemma overview_ignores_the_addresses_witness :
  @overview rotki
    (with_allProtocols liabilitiesOnly
       [ ("0x1", [entryOf "Curve" "0xT" "Dai" "DAI" 7 7 Liability]);
         ("0x2", [entryOf "Curve" "0xU" "Tether" "USDT" 3 3 Liability]) ]) =
  @overview rotki liabilitiesOnly.
Proof.
  apply (@overview_ignores_the_addresses rotki liabilitiesOnly
           [ ("0x1", [entryOf "Curve" "0xT" "Dai" "DAI" 7 7 Liability]);
             ("0x2", [entryOf "Curve" "0xU" "Tether" "USDT" 3 3 Liability]) ]).
  reflexivity.
Defined.
